(** * A model of the Copilot proxy: [src/index.js] and its optimized twin

    The repository holds two server files.  Both declare the same
    [class Copilot] (the session adapter: [createConversation] and [chat])
    and a [POST /api/ai] route.  They differ in the route only:
    - [src/index.js] builds a fresh [Copilot] per request and forwards the
      query as it is;
    - [src/unnamed/part_000] keeps one [Copilot] for the process and wraps the
      query in a persona / language prompt.

    JavaScript values are embedded as a small inductive type, strings as
    lists of UTF-16 code units, and the effects of the code (the HTTP call
    that creates a conversation, the WebSocket traffic, the promise that
    [chat] returns) as explicit state passing over a description of what the
    outside world delivers. *)

From Stdlib Require Import String Ascii List NArith ZArith Bool Lia.
From Stdlib Require Import DecimalString.
Import ListNotations.

Local Open Scope N_scope.
Local Open Scope list_scope.

(** ** Strings *)

Module JsString.

(** A JavaScript string is a sequence of 16-bit code units. *)
Definition t := list N.

(** The code units of an ASCII literal of the source. *)
Definition lit (s : string) : t := map N_of_ascii (list_ascii_of_string s).

Fixpoint eqb (a b : t) : bool :=
  match a, b with
  | [], [] => true
  | x :: a', y :: b' => N.eqb x y && eqb a' b'
  | _, _ => false
  end.

(** ECMAScript WhiteSpace and LineTerminator code points: what
    [String.prototype.trim] strips. *)
Definition is_ws (c : N) : bool :=
  (c =? 9) || (c =? 10) || (c =? 11) || (c =? 12) || (c =? 13) ||
  (c =? 32) || (c =? 160) || (c =? 5760) ||
  ((8192 <=? c) && (c <=? 8202)) ||
  (c =? 8232) || (c =? 8233) || (c =? 8239) || (c =? 8287) ||
  (c =? 12288) || (c =? 65279).

Fixpoint trimStart (s : t) : t :=
  match s with
  | c :: s' => if is_ws c then trimStart s' else s
  | [] => []
  end.

(** [s.trim()] *)
Definition trim (s : t) : t := rev (trimStart (rev (trimStart s))).

(** [parts.join(sep)] on an array of strings. *)
Fixpoint join (sep : t) (parts : list t) : t :=
  match parts with
  | [] => []
  | [p] => p
  | p :: rest => p ++ sep ++ join sep rest
  end.

(** Decimal rendering of the integers the code turns into text
    ([.length], a difference of two [Date.now()] readings). *)
Definition of_nat (n : nat) : t := lit (NilEmpty.string_of_uint (Nat.to_uint n)).
Definition of_Z (z : Z) : t := lit (NilEmpty.string_of_int (Z.to_int z)).

Definition nl : t := [10].
Definition dquote : t := [34].

End JsString.

Abbreviation jsstring := JsString.t.
Abbreviation lit := JsString.lit.

Set Warnings "-register-all".

(** ** Values *)

(** What the code handles dynamically: the result of [JSON.parse], the
    request body, the object literals it builds.  A Number is carried by its
    [Number::toString] rendering, which is all the code ever asks of a decoded
    number (truthiness, [typeof], concatenation).  [VNative] is a built-in
    reached through the prototype chain; JSON never produces one. *)
Inductive value : Type :=
| VUndefined
| VNull
| VBool (b : bool)
| VNum (repr : jsstring)
| VStr (s : jsstring)
| VArr (items : list value)
| VObj (props : list (jsstring * value))
| VNative (name : jsstring).

(** Own property of an object literal or a parsed object; when a key occurs
    twice the later binding wins, as in [JSON.parse]. *)
Fixpoint own (props : list (jsstring * value)) (k : jsstring) : option value :=
  match props with
  | [] => None
  | (k', v) :: rest =>
      match own rest k with
      | Some w => Some w
      | None => if JsString.eqb k' k then Some v else None
      end
  end.

(** The properties every ordinary object inherits from [Object.prototype]. *)
Definition object_prototype_names : list jsstring :=
  map lit [ "constructor"; "__defineGetter__"; "__defineSetter__";
            "hasOwnProperty"; "__lookupGetter__"; "__lookupSetter__";
            "isPrototypeOf"; "propertyIsEnumerable"; "toString"; "valueOf";
            "__proto__"; "toLocaleString" ]%string.

Definition inherited (k : jsstring) : value :=
  if existsb (JsString.eqb k) object_prototype_names then VNative k
  else VUndefined.

(** [v.k] and [v[k]].  [None] is the TypeError of reading a property of
    [null] or [undefined].  On strings, arrays, numbers and booleans only the
    part of the chain shared with plain objects is modelled: the program reads
    no index, no [length] and no method name on a decoded value. *)
Definition Get (v : value) (k : jsstring) : option value :=
  match v with
  | VUndefined | VNull => None
  | VObj props =>
      match own props k with
      | Some w => Some w
      | None => Some (inherited k)
      end
  | _ => Some (inherited k)
  end.

(** [v.k] where [v] is known to be an object. *)
Definition field (v : value) (k : jsstring) : value :=
  match Get v k with Some w => w | None => VUndefined end.

(** ToBoolean *)
Definition truthy (v : value) : bool :=
  match v with
  | VUndefined | VNull => false
  | VBool b => b
  | VNum r => negb (JsString.eqb r (lit "0") || JsString.eqb r (lit "NaN"))
  | VStr s => match s with [] => false | _ => true end
  | VArr _ | VObj _ | VNative _ => true
  end.

(** [a || b] *)
Definition or_else (a b : value) : value := if truthy a then a else b.

(** [typeof v === 'string'] *)
Definition is_string (v : value) : bool :=
  match v with VStr _ => true | _ => false end.

(** [v === 'literal'] *)
Definition strict_eq_str (v : value) (s : jsstring) : bool :=
  match v with VStr s' => JsString.eqb s' s | _ => false end.

(** ToString, as applied by [+=] on a string, by a template literal and by
    [new Error(msg)].  [None] is the TypeError "Cannot convert object to
    primitive value": a decoded object that has an own [toString] property
    hides [Object.prototype.toString] behind a value that cannot be called. *)
Fixpoint ToString (v : value) : option jsstring :=
  match v with
  | VUndefined => Some (lit "undefined")
  | VNull => Some (lit "null")
  | VBool true => Some (lit "true")
  | VBool false => Some (lit "false")
  | VNum r => Some r
  | VStr s => Some s
  | VArr items =>
      (fix join (l : list value) : option jsstring :=
         match l with
         | [] => Some []
         | x :: rest =>
             let elem := match x with
                         | VUndefined | VNull => Some []
                         | _ => ToString x
                         end in
             match elem, rest with
             | None, _ => None
             | Some e, [] => Some e
             | Some e, _ :: _ =>
                 match join rest with
                 | Some r => Some (e ++ lit "," ++ r)
                 | None => None
                 end
             end
         end) items
  | VObj props =>
      match own props (lit "toString") with
      | Some _ => None
      | None => Some (lit "[object Object]")
      end
  | VNative name =>
      if JsString.eqb name (lit "__proto__") then Some (lit "[object Object]")
      else if JsString.eqb name (lit "constructor") then
        Some (lit "function Object() { [native code] }")
      else Some (lit "function " ++ name ++ lit "() { [native code] }")
  end.

(** ** The session adapter: [class Copilot] *)

(** The value [chat] resolves with: [{ text: '', citations: [] }] and what the
    message listener adds to it.  [text] only ever receives strings. *)
Record citation := { title : value; icon : value; url : value }.

Record ChatResult := { text : jsstring; citations : list citation }.

(** What the adapter does to the outside world, in order. *)
Inductive effect :=
| AxiosPost (target : jsstring) (headers : value)
| WsConnect (target : jsstring) (headers : value)
| WsSend (payload : value)
| WsCloseCall.

(** What the socket reports to its listeners.  A message is carried as the
    outcome of [JSON.parse(chunk.toString())]: [None] when that throws. *)
Inductive ws_event :=
| WsOpen
| WsMessage (parsed : option value)
| WsError (message : jsstring)
| WsClosed (code : N).

(** How the promise of the exchange was settled; an [Error] is carried by its
    [message], the only part the route reads. *)
Inductive settlement :=
| Resolved
| Rejected (message : jsstring).

(** The state of one exchange: the one [response] object shared by the
    listener and by whoever the promise was resolved to, the first settlement
    of the promise (later calls of [resolve] and [reject] do nothing), and the
    effects so far. *)
Record exchange := {
  response : ChatResult;
  settled : option settlement;
  trace : list effect
}.

(** [axios.post]: a network failure, or a response; with the default
    [validateStatus] a status outside 200..299 rejects as well. *)
Inductive axios_outcome :=
| NetworkError (message : jsstring)
| HttpResponse (status : N) (data : value).

Definition axios_post (o : axios_outcome) : jsstring + value :=
  match o with
  | NetworkError m => inl m
  | HttpResponse status data =>
      if (200 <=? status) && (status <? 300) then inr data
      else inl (lit "Request failed with status code "
                  ++ JsString.of_nat (N.to_nat status))
  end.

Record Copilot := {
  conversationId : value;
  models : list (jsstring * value);
  headers : value
}.

(** [constructor()] *)
Definition new_Copilot : Copilot := {|
  conversationId := VNull;
  models := [ (lit "default", VStr (lit "chat"));
              (lit "think-deeper", VStr (lit "reasoning"));
              (lit "gpt-5", VStr (lit "smart")) ];
  headers := VObj
    [ (lit "origin", VStr (lit "https://copilot.microsoft.com"));
      (lit "user-agent", VStr (lit "Mozilla/5.0 (Linux; Android 15; SM-F958 Build/AP3A.240905.015) AppleWebKit/537.36 (KHTML, like Gecko) Chrome/130.0.6723.86 Mobile Safari/537.36")) ]
|}.

Definition conversations_url : jsstring :=
  lit "https://copilot.microsoft.com/c/api/conversations".

Definition chat_url : jsstring :=
  lit "wss://copilot.microsoft.com/c/api/chat?api-version=2&features=-,ncedge,edgepagecontext&setflight=-,ncedge,edgepagecontext&ncedge=1".

Definition create_failed : jsstring :=
  lit "Failed to create a new conversation with the AI service.".

Definition set_conversationId (c : Copilot) (id : value) : Copilot :=
  {| conversationId := id; models := models c; headers := headers c |}.

(** [async createConversation()]: the adapter afterwards, and the identity or
    the message of the error thrown.  The [try] covers both the request and
    the read of [data.id]. *)
Definition createConversation (c : Copilot) (o : axios_outcome)
  : Copilot * (jsstring + value) :=
  match axios_post o with
  | inl _ => (c, inl create_failed)
  | inr data =>
      match Get data (lit "id") with
      | None => (c, inl create_failed)
      | Some id => (set_conversationId c id, inr id)
      end
  end.

(** [Object.keys(this.models).join(', ')] *)
Definition model_names (c : Copilot) : jsstring :=
  JsString.join (lit ", ") (map fst (models c)).

Definition set_options_frame : value :=
  VObj [ (lit "event", VStr (lit "setOptions"));
         (lit "supportedFeatures", VArr [VStr (lit "partial-generated-images")]);
         (lit "supportedCards",
           VArr (map (fun s => VStr (lit s))
                   [ "weather"; "local"; "image"; "sports"; "video"; "ads";
                     "safetyHelpline"; "quiz"; "finance"; "recipe" ]%string));
         (lit "ads",
           VObj [ (lit "supportedTypes",
                   VArr (map (fun s => VStr (lit s))
                           [ "text"; "product"; "multimedia"; "tourActivity";
                             "propertyPromotion" ]%string)) ]) ].

Definition send_frame (mode id : value) (message : jsstring) : value :=
  VObj [ (lit "event", VStr (lit "send"));
         (lit "mode", mode);
         (lit "conversationId", id);
         (lit "content",
           VArr [ VObj [ (lit "type", VStr (lit "text"));
                         (lit "text", VStr message) ] ]);
         (lit "context", VObj []) ].

Definition process_failed : jsstring :=
  lit "Failed to process message from AI service.".

Definition unknown_error : jsstring :=
  lit "An unknown error occurred during the AI chat.".

(** [resolve(response)] and [reject(new Error(m))]: only the first call on a
    promise has an effect. *)
Definition settle (s : settlement) (st : exchange) : exchange :=
  match settled st with
  | Some _ => st
  | None => {| response := response st; settled := Some s; trace := trace st |}
  end.

Definition emit (e : effect) (st : exchange) : exchange :=
  {| response := response st; settled := settled st; trace := trace st ++ [e] |}.

Definition set_response (r : ChatResult) (st : exchange) : exchange :=
  {| response := r; settled := settled st; trace := trace st |}.

(** The body of the [try] in the message listener, on a parsed frame: the
    state afterwards, or [None] where it throws. *)
Definition dispatch (parsed : value) (st : exchange) : option exchange :=
  match Get parsed (lit "event") with
  | None => None
  | Some tag =>
      if strict_eq_str tag (lit "appendText") then
        match Get parsed (lit "text") with
        | None => None
        | Some t =>
            match ToString (or_else t (VStr [])) with
            | None => None
            | Some fragment =>
                Some (set_response
                        {| text := text (response st) ++ fragment;
                           citations := citations (response st) |} st)
            end
        end
      else if strict_eq_str tag (lit "citation") then
        match Get parsed (lit "title"), Get parsed (lit "iconUrl"),
              Get parsed (lit "url") with
        | Some t, Some i, Some u =>
            Some (set_response
                    {| text := text (response st);
                       citations := citations (response st)
                                      ++ [ {| title := t; icon := i; url := u |} ] |}
                    st)
        | _, _, _ => None
        end
      else if strict_eq_str tag (lit "done") then
        Some (emit WsCloseCall (settle Resolved st))
      else if strict_eq_str tag (lit "error") then
        match Get parsed (lit "message") with
        | None => None
        | Some m =>
            match ToString (or_else m (VStr unknown_error)) with
            | None => None
            | Some msg => Some (emit WsCloseCall (settle (Rejected msg) st))
            end
        end
      else Some st
  end.

(** [ws.on('message', ...)]: the [catch] turns a failed parse and anything
    thrown by the dispatch into one rejection. *)
Definition on_message (chunk : option value) (st : exchange) : exchange :=
  match chunk with
  | None => settle (Rejected process_failed) st
  | Some parsed =>
      match dispatch parsed st with
      | Some st' => st'
      | None => settle (Rejected process_failed) st
      end
  end.

(** The four listeners of the socket.  [mode], [id] and [message] are what
    the [open] listener closes over.  The [close] listener of [src/index.js]
    has an empty body; [src/unnamed/part_000] registers none. *)
Definition on_event (mode id : value) (message : jsstring)
    (e : ws_event) (st : exchange) : exchange :=
  match e with
  | WsOpen =>
      emit (WsSend (send_frame mode id message))
        (emit (WsSend set_options_frame) st)
  | WsMessage chunk => on_message chunk st
  | WsError m => settle (Rejected (lit "WebSocket error: " ++ m)) st
  | WsClosed _ => st
  end.

(** What [await copilot.chat(...)] comes to: a value, a thrown error, or
    nothing, when the socket falls silent with the promise still pending. *)
Inductive outcome :=
| Fulfilled (r : ChatResult)
| Failed (message : jsstring)
| Pending.

(** What the awaiting caller makes of the exchange: the promise was resolved
    with the [response] object, whose fields the caller reads when it runs. *)
Definition outcome_of (st : exchange) : outcome :=
  match settled st with
  | Some Resolved => Fulfilled (response st)
  | Some (Rejected m) => Failed m
  | None => Pending
  end.

(** [const response = { text: '', citations: [] }] *)
Definition empty_response : ChatResult := {| text := []; citations := [] |}.

(** The exchange as the promise executor starts it, after the effects so far. *)
Definition fresh (effects : list effect) : exchange :=
  {| response := empty_response; settled := None; trace := effects |}.

Section Exchange.

Variables (mode id : value) (message : jsstring).

(** The listeners run on the events of a list, in order. *)
Fixpoint run (evs : list ws_event) (st : exchange) : exchange :=
  match evs with
  | [] => st
  | e :: rest => run rest (on_event mode id message e st)
  end.

(** The state at the moment the promise settles: the listeners run on the
    events up to and including the first one that settles it. *)
Fixpoint until_settled (evs : list ws_event) (st : exchange) : exchange :=
  match evs with
  | [] => st
  | e :: rest =>
      let st' := on_event mode id message e st in
      match settled st' with
      | Some _ => st'
      | None => until_settled rest st'
      end
  end.

(** What the awaiting caller finds.  The socket delivers its events in
    jobs of the event loop, each a batch of events dispatched back to back;
    a continuation of [await] runs between jobs only.  The caller resumes
    after the first job that settles the promise, when every event of that
    job has been through the listeners, which stay registered after
    [resolve]. *)
Fixpoint await_exchange (jobs : list (list ws_event)) (st : exchange)
  : exchange :=
  match jobs with
  | [] => st
  | job :: rest =>
      let st' := run job st in
      match settled st' with
      | Some _ => st'
      | None => await_exchange rest st'
      end
  end.

End Exchange.

(** What the outside world delivers to one call of [chat]: the outcome of the
    conversation request, should one be made, and the events of the socket,
    should one be opened. *)
Record backend := {
  creation : axios_outcome;
  jobs : list (list ws_event)
}.

(** The first statement of [chat]:
    [if (!this.conversationId) await this.createConversation();].  The
    adapter afterwards, the request made if any, and the message of the error
    thrown if any. *)
Definition ensure_conversation (c : Copilot) (o : axios_outcome)
  : Copilot * list effect * option jsstring :=
  if truthy (conversationId c) then (c, [], None)
  else
    let call := [AxiosPost conversations_url (headers c)] in
    match createConversation c o with
    | (c', inl m) => (c', call, Some m)
    | (c', inr _) => (c', call, None)
    end.

(** [`Available models: ${Object.keys(this.models).join(', ')}`] *)
Definition available_models (c : Copilot) : jsstring :=
  lit "Available models: " ++ model_names c.

(** [async chat(message, { model = 'default' } = {})].  The selector is a
    string, or absent.  Returns the adapter afterwards, the effects in order
    and the outcome. *)
Definition chat (c : Copilot) (message : jsstring) (model : option jsstring)
    (w : backend) : Copilot * list effect * outcome :=
  let selector := match model with Some m => m | None => lit "default" end in
  match ensure_conversation c (creation w) with
  | (c1, calls, Some m) => (c1, calls, Failed m)
  | (c1, calls, None) =>
      let mode := field (VObj (models c1)) selector in
      if truthy mode then
        let st :=
          await_exchange mode (conversationId c1) message (jobs w)
            (fresh (calls ++ [WsConnect chat_url (headers c1)])) in
        (c1, trace st, outcome_of st)
      else (c1, calls, Failed (available_models c1))
  end.

(** ** The route [POST /api/ai] *)

(** What the caller of the route gets: a response, the error that escaped the
    handler (reading a field of a body that is [undefined]), or nothing while
    the exchange is pending. *)
Inductive reply :=
| Replied (status : N) (body : value)
| Uncaught
| Unanswered.

(** The clock readings one request takes: the two [Date.now()] and
    [new Date().toISOString()]. *)
Record clock := {
  started : Z;
  finished : Z;
  timestamp : jsstring
}.

(** [!query || typeof query !== 'string' || query.trim() === ''] *)
Definition rejects_query (query : value) : bool :=
  negb (truthy query) || negb (is_string query) ||
  match query with
  | VStr s => JsString.eqb (JsString.trim s) []
  | _ => true
  end.

Definition bad_request : value :=
  VObj [ (lit "success", VBool false);
         (lit "error",
           VStr (lit "Bad Request: 'query' field is missing or empty.")) ].

Definition server_error (m : jsstring) : value :=
  VObj [ (lit "success", VBool false);
         (lit "error", VStr (lit "Internal Server Error"));
         (lit "message", VStr m) ].

Definition citation_value (c : citation) : value :=
  VObj [ (lit "title", title c); (lit "icon", icon c); (lit "url", url c) ].

Definition success (responseText : jsstring) (cits : list citation)
    (metadata : value) : value :=
  VObj [ (lit "success", VBool true);
         (lit "response", VStr responseText);
         (lit "citations", VArr (map citation_value cits));
         (lit "metadata", metadata) ].

Definition number_of_nat (n : nat) : value := VNum (JsString.of_nat n).

(** The string a validated query is. *)
Definition as_string (v : value) : jsstring :=
  match v with VStr s => s | _ => [] end.

(** [src/index.js] *)
Module Index.

Definition metadata (query responseText : jsstring) (cits : list citation)
    (t : clock) : value :=
  VObj [ (lit "queryLength", number_of_nat (length query));
         (lit "responseLength", number_of_nat (length responseText));
         (lit "citationCount", number_of_nat (length cits));
         (lit "executionTime",
           VStr (JsString.of_Z (finished t - started t) ++ lit "ms"));
         (lit "timestamp", VStr (timestamp t));
         (lit "modelUsed", VStr (lit "default")) ].

(** What the route makes of the outcome of [await copilot.chat(...)]: the
    rest of the [try] block, or the [catch]. *)
Definition respond (q : jsstring) (t : clock) (result : outcome) : reply :=
  match result with
  | Fulfilled aiResponse =>
      let responseText := JsString.trim (text aiResponse) in
      let cits := citations aiResponse in
      Replied 200 (success responseText cits (metadata q responseText cits t))
  | Failed m => Replied 500 (server_error m)
  | Pending => Unanswered
  end.

(** [app.post('/api/ai', async (req, res) => ...)] on [req.body]: the
    effects on the backend and the reply. *)
Definition post_api_ai (body : value) (w : backend) (t : clock)
  : list effect * reply :=
  match Get body (lit "query") with
  | None => ([], Uncaught)
  | Some query =>
      if rejects_query query then ([], Replied 400 bad_request)
      else
        let q := as_string query in
        let '(_, effects, result) := chat new_Copilot q None w in
        (effects, respond q t result)
  end.

End Index.

(** [src/unnamed/part_000] *)
Module Optimized.

(** V8's messages for the two TypeErrors the prompt block can raise. *)
Definition trim_not_a_function : jsstring :=
  lit "customModel.trim is not a function".
Definition cannot_convert : jsstring :=
  lit "Cannot convert object to primitive value".

Definition persona_instruction (customModel : jsstring) : jsstring :=
  lit "Anda adalah AI yang harus berperan sebagai: " ++ JsString.dquote
    ++ customModel ++ JsString.dquote
    ++ lit ". Pertahankan karakter ini dalam jawaban Anda.".

Definition language_instruction (outputLanguage : jsstring) : jsstring :=
  lit "Anda harus menjawab secara eksklusif dalam Bahasa "
    ++ outputLanguage ++ lit ".".

Definition delimiter : jsstring :=
  JsString.nl ++ JsString.nl ++ lit "---" ++ JsString.nl ++ JsString.nl
    ++ lit "PERTANYAAN:" ++ JsString.nl.

(** [if (customModel && customModel.trim() !== '') instructions.push(...)]:
    the instructions pushed, or the message of the error thrown. *)
Definition persona (customModel : value) : jsstring + list jsstring :=
  if truthy customModel then
    match customModel with
    | VStr s =>
        if JsString.eqb (JsString.trim s) [] then inr []
        else inr [persona_instruction s]
    | _ => inl trim_not_a_function
    end
  else inr [].

(** [language || 'Indonesia'] *)
Definition outputLanguage (language : value) : value :=
  or_else language (VStr (lit "Indonesia")).

(** The block under "Prompt Engineering": [finalPrompt], or the message of
    the error thrown. *)
Definition finalPrompt (customModel language : value) (query : jsstring)
  : jsstring + jsstring :=
  match persona customModel with
  | inl m => inl m
  | inr instructions =>
      match ToString (outputLanguage language) with
      | None => inl cannot_convert
      | Some l =>
          inr (JsString.join (lit " ")
                 (instructions ++ [language_instruction l])
                 ++ delimiter ++ query)
      end
  end.

Definition metadata (query prompt responseText : jsstring)
    (cits : list citation) (customModel language : value) (t : clock)
  : value :=
  VObj [ (lit "queryLength", number_of_nat (length query));
         (lit "finalPromptLength", number_of_nat (length prompt));
         (lit "responseLength", number_of_nat (length responseText));
         (lit "citationCount", number_of_nat (length cits));
         (lit "executionTime",
           VStr (JsString.of_Z (finished t - started t) ++ lit "ms"));
         (lit "timestamp", VStr (timestamp t));
         (lit "modelUsed", VStr (lit "default"));
         (lit "customCharacter",
           or_else customModel (VStr (lit "Tidak diatur")));
         (lit "outputLanguage", outputLanguage language) ].

(** What the route makes of the outcome of [await copilot.chat(...)]: the
    rest of the [try] block, or the [catch]. *)
Definition respond (q prompt : jsstring) (customModel language : value)
    (t : clock) (result : outcome) : reply :=
  match result with
  | Fulfilled aiResponse =>
      let responseText := JsString.trim (text aiResponse) in
      let cits := citations aiResponse in
      Replied 200
        (success responseText cits
           (metadata q prompt responseText cits customModel language t))
  | Failed m => Replied 500 (server_error m)
  | Pending => Unanswered
  end.

(** [app.post('/api/ai', async (req, res) => ...)] on [req.body], with the
    one [copilot] of the process threaded through. *)
Definition post_api_ai (copilot : Copilot) (body : value) (w : backend)
    (t : clock) : Copilot * list effect * reply :=
  match Get body (lit "query"), Get body (lit "customModel"),
        Get body (lit "language") with
  | Some query, Some customModel, Some language =>
      if rejects_query query then (copilot, [], Replied 400 bad_request)
      else
        let q := as_string query in
        match finalPrompt customModel language q with
        | inl m => (copilot, [], Replied 500 (server_error m))
        | inr prompt =>
            let '(copilot', effects, result) := chat copilot prompt None w in
            (copilot', effects,
             respond q prompt customModel language t result)
        end
  | _, _, _ => (copilot, [], Uncaught)
  end.

End Optimized.

(** ** Reading a stream of frames

    The vocabulary of the statements below: the frames of a stream that carry
    a given event tag, what an [appendText] frame contributes to the text,
    the record a [citation] frame stands for, and the part of a stream that
    precedes its first [done] frame. *)

Definition tag_of (v : value) : option value := Get v (lit "event").

Definition has_tag (tag : jsstring) (v : value) : bool :=
  match tag_of v with
  | Some t => strict_eq_str t tag
  | None => false
  end.

Definition is_frame (tag : jsstring) (e : ws_event) : bool :=
  match e with
  | WsMessage (Some v) => has_tag tag v
  | _ => false
  end.

(** The parsed frames of a stream that carry [tag], in arrival order. *)
Fixpoint frames_tagged (tag : jsstring) (evs : list ws_event) : list value :=
  match evs with
  | [] => []
  | WsMessage (Some v) :: rest =>
      if has_tag tag v then v :: frames_tagged tag rest
      else frames_tagged tag rest
  | _ :: rest => frames_tagged tag rest
  end.

(** The text fragment of an [appendText] frame: its [text] as a string,
    nothing when the field is missing or empty. *)
Definition fragment_of (v : value) : jsstring :=
  match ToString (or_else (field v (lit "text")) (VStr [])) with
  | Some f => f
  | None => []
  end.

Definition citation_of (v : value) : citation :=
  {| title := field v (lit "title");
     icon := field v (lit "iconUrl");
     url := field v (lit "url") |}.

Definition appended (evs : list ws_event) : jsstring :=
  concat (map fragment_of (frames_tagged (lit "appendText") evs)).

Definition cited (evs : list ws_event) : list citation :=
  map citation_of (frames_tagged (lit "citation") evs).

(** The events that arrive before the first [done] frame. *)
Fixpoint before_done (evs : list ws_event) : list ws_event :=
  match evs with
  | [] => []
  | e :: rest =>
      if is_frame (lit "done") e then [] else e :: before_done rest
  end.

(** A frame the listener cannot process: the chunk is not JSON, or it decodes
    to [null], or it is an [appendText] whose [text] has no string form. *)
Definition malformed (e : ws_event) : bool :=
  match e with
  | WsMessage None => true
  | WsMessage (Some v) =>
      match tag_of v with
      | None => true
      | Some _ =>
          has_tag (lit "appendText") v &&
          match ToString (or_else (field v (lit "text")) (VStr [])) with
          | None => true
          | Some _ => false
          end
      end
  | _ => false
  end.

(** What an event does to a promise that is still pending. *)
Definition verdict (e : ws_event) : option settlement :=
  match e with
  | WsOpen | WsClosed _ => None
  | WsError m => Some (Rejected (lit "WebSocket error: " ++ m))
  | WsMessage None => Some (Rejected process_failed)
  | WsMessage (Some v) =>
      if malformed e then Some (Rejected process_failed)
      else if has_tag (lit "done") v then Some Resolved
      else if has_tag (lit "error") v then
        match ToString (or_else (field v (lit "message")) (VStr unknown_error)) with
        | Some m => Some (Rejected m)
        | None => Some (Rejected process_failed)
        end
      else None
  end.

(** An event that leaves a pending promise pending. *)
Definition quiet (e : ws_event) : bool :=
  match verdict e with
  | None => true
  | Some _ => false
  end.

(** The frames of the backend protocol that the statements use. *)
Definition appendText_frame (s : jsstring) : value :=
  VObj [ (lit "event", VStr (lit "appendText")); (lit "text", VStr s) ].

Definition citation_frame (t i u : jsstring) : value :=
  VObj [ (lit "event", VStr (lit "citation")); (lit "title", VStr t);
         (lit "iconUrl", VStr i); (lit "url", VStr u) ].

Definition done_frame : value := VObj [ (lit "event", VStr (lit "done")) ].

Definition error_frame (m : jsstring) : value :=
  VObj [ (lit "event", VStr (lit "error")); (lit "message", VStr m) ].

(** The request and the backend of the scenario of the specification. *)
Definition halo_body : value := VObj [ (lit "query", VStr (lit "Halo")) ].

Definition halo_stream : list ws_event :=
  [ WsOpen;
    WsMessage (Some (appendText_frame (lit "Hi")));
    WsMessage (Some (appendText_frame (lit " there")));
    WsMessage (Some done_frame) ].

Definition created (id : jsstring) : axios_outcome :=
  HttpResponse 200 (VObj [ (lit "id", VStr id) ]).

Definition noon : clock :=
  {| started := 1000; finished := 1250;
     timestamp := lit "2025-01-01T12:00:00.000Z" |}.

(** ** Reading the effects of an exchange *)


Definition is_post (e : effect) : bool :=
  match e with AxiosPost _ _ => true | _ => false end.


Definition is_close_call (e : effect) : bool :=
  match e with WsCloseCall => true | _ => false end.

Definition printable (v : value) : bool :=
  match ToString v with Some _ => true | None => false end.

(** The frames after which the listener calls [ws.close()]: a [done] frame,
    and an [error] frame whose message can be turned into an [Error]. *)
Definition closing (e : ws_event) : bool :=
  match e with
  | WsMessage (Some v) =>
      has_tag (lit "done") v ||
      (has_tag (lit "error") v &&
       printable (or_else (field v (lit "message")) (VStr unknown_error)))
  | _ => false
  end.

(** What one event makes the listeners do to the socket. *)
Definition emitted (mode id : value) (message : jsstring) (e : ws_event)
  : list effect :=
  match e with
  | WsOpen => [ WsSend set_options_frame; WsSend (send_frame mode id message) ]
  | _ => if closing e then [WsCloseCall] else []
  end.

(** An event that changes nothing: the socket's [close] event, a frame with
    a tag the listener does not know or with none (a decoded number, string,
    boolean or array), and an [appendText] frame whose [text] is missing or
    falsy. *)
Definition ignorable (e : ws_event) : bool :=
  match e with
  | WsClosed _ => true
  | WsMessage (Some v) =>
      match tag_of v with
      | None => false
      | Some tag =>
          if strict_eq_str tag (lit "appendText")
          then negb (truthy (field v (lit "text")))
          else negb (strict_eq_str tag (lit "citation")
                     || strict_eq_str tag (lit "done")
                     || strict_eq_str tag (lit "error"))
      end
  | _ => false
  end.

(** The backend with the ignorable events taken out of every job. *)
Definition without_ignorable (w : backend) : backend :=
  {| creation := creation w;
     jobs := map (filter (fun e => negb (ignorable e))) (jobs w) |}.

(** A string with no whitespace at either end. *)
Definition bare (s : jsstring) : bool :=
  match s with [] => true | c :: _ => negb (JsString.is_ws c) end &&
  match rev s with [] => true | c :: _ => negb (JsString.is_ws c) end.

(** Requests to the optimized route handled one after another on the shared
    [copilot]: each starts on the adapter as the previous one left it.  The
    handler suspends at each [await]; requests that overlap in time are not
    described by this function. *)
Fixpoint serve_in_turn (copilot : Copilot)
    (requests : list (value * backend * clock))
  : Copilot * list (list effect * reply) :=
  match requests with
  | [] => (copilot, [])
  | (body, w, t) :: rest =>
      let '(copilot', effects, r) := Optimized.post_api_ai copilot body w t in
      let '(copilot'', replies) := serve_in_turn copilot' rest in
      (copilot'', (effects, r) :: replies)
  end.

(** * Properties *)
Example of_nat_12 : JsString.of_nat 12 = lit "12".
Proof. reflexivity. Qed.

Example of_Z_neg : JsString.of_Z (-7) = lit "-7".
Proof. reflexivity. Qed.

Example trim_ex : JsString.trim (lit "  a b " ++ JsString.nl) = lit "a b".
Proof. reflexivity. Qed.

Example ToString_arr :
  ToString (VArr [VNum (lit "1"); VNull; VStr (lit "x")]) = Some (lit "1,,x").
Proof. reflexivity. Qed.


(** ** Strings and values *)

Lemma eqb_refl (a : jsstring) : JsString.eqb a a = true.
Proof.
  induction a as [|x a IH]; simpl; [reflexivity|].
  now rewrite N.eqb_refl, IH.
Qed.

Lemma eqb_eq (a b : jsstring) : JsString.eqb a b = true <-> a = b.
Proof.
  split; [|intros ->; apply eqb_refl].
  revert b; induction a as [|x a IH]; intros [|y b]; simpl; try discriminate.
  - reflexivity.
  - intros H. apply andb_true_iff in H as [Hx Hab].
    apply N.eqb_eq in Hx. subst y. f_equal. now apply IH.
Qed.

Lemma strict_eq_str_true (v : value) (s : jsstring) :
  strict_eq_str v s = true -> v = VStr s.
Proof.
  destruct v; simpl; try discriminate.
  intros H. apply eqb_eq in H. now subst.
Qed.

Lemma Get_defined (v : value) (k k' : jsstring) (w : value) :
  Get v k = Some w -> exists w', Get v k' = Some w'.
Proof.
  destruct v; simpl; try discriminate; intros _; eauto.
  destruct (own props k'); eauto.
Qed.

Lemma field_Get (v : value) (k : jsstring) (w : value) :
  Get v k = Some w -> field v k = w.
Proof. unfold field. now intros ->. Qed.

(** ** One event *)

Lemma settled_settle (s : settlement) (st : exchange) :
  settled (settle s st) =
  match settled st with Some s' => Some s' | None => Some s end.
Proof. unfold settle. destruct (settled st) eqn:E; simpl; auto. Qed.

Lemma response_settle (s : settlement) (st : exchange) :
  response (settle s st) = response st.
Proof. unfold settle. destruct (settled st); reflexivity. Qed.

Lemma trace_settle (s : settlement) (st : exchange) :
  trace (settle s st) = trace st.
Proof. unfold settle. destruct (settled st); reflexivity. Qed.

(** The tags the listener knows are four different strings. *)
Ltac tag_clash :=
  match goal with
  | H : strict_eq_str ?t _ = true |- _ =>
      apply strict_eq_str_true in H; subst t; simpl in *; try discriminate
  end.

(** Opens the listener's case analysis on a parsed frame. *)
Ltac open_dispatch v :=
  unfold dispatch;
  destruct (Get v (lit "event")) as [tag|] eqn:Htag;
  [ destruct (strict_eq_str tag (lit "appendText")) eqn:Happend;
    [ | destruct (strict_eq_str tag (lit "citation")) eqn:Hcite;
        [ | destruct (strict_eq_str tag (lit "done")) eqn:Hdone;
            [ | destruct (strict_eq_str tag (lit "error")) eqn:Herror ] ] ]
  | ].

Section OneExchange.

Variables (mode id : value) (message : jsstring).

Local Abbreviation step := (on_event mode id message).
Local Abbreviation run := (run mode id message).
Local Abbreviation until_settled := (until_settled mode id message).
Local Abbreviation await_exchange := (await_exchange mode id message).

(** A settled promise stays as it is. *)
Lemma settled_sticky (e : ws_event) (st : exchange) (s : settlement) :
  settled st = Some s -> settled (step e st) = Some s.
Proof.
  intros Hs. destruct e as [| [v|] | m | code]; simpl; auto.
  - unfold on_message. open_dispatch v; simpl;
      rewrite ?settled_settle, ?Hs; auto.
    + destruct (Get v (lit "text")) as [t|]; simpl;
        rewrite ?settled_settle, ?Hs; auto.
      destruct (ToString _); simpl; rewrite ?settled_settle, ?Hs; auto.
    + destruct (Get v (lit "title")), (Get v (lit "iconUrl")),
        (Get v (lit "url")); simpl; rewrite ?settled_settle, ?Hs; auto.
    + destruct (Get v (lit "message")) as [t|]; simpl;
        rewrite ?settled_settle, ?Hs; auto.
      destruct (ToString _); simpl; rewrite ?settled_settle, ?Hs; auto.
  - unfold on_message. now rewrite settled_settle, Hs.
  - now rewrite settled_settle, Hs.
Qed.

(** On a pending promise an event decides as [verdict] says. *)
Lemma settled_step (e : ws_event) (st : exchange) :
  settled st = None -> settled (step e st) = verdict e.
Proof.
  intros Hs. destruct e as [| [v|] | m | code]; simpl; auto.
  - unfold on_message, verdict, malformed, has_tag, tag_of.
    open_dispatch v; simpl.
    + destruct (Get_defined v _ (lit "text") _ Htag) as [t Ht].
      rewrite Ht, (field_Get _ _ _ Ht).
      destruct (ToString _); simpl; rewrite ?settled_settle, ?Hs; auto.
      tag_clash. reflexivity.
    + destruct (Get_defined v _ (lit "title") _ Htag) as [t ->].
      destruct (Get_defined v _ (lit "iconUrl") _ Htag) as [i ->].
      destruct (Get_defined v _ (lit "url") _ Htag) as [u ->].
      simpl. rewrite Hs. tag_clash. reflexivity.
    + simpl. now rewrite settled_settle, Hs.
    + destruct (Get_defined v _ (lit "message") _ Htag) as [t Ht].
      rewrite Ht, (field_Get _ _ _ Ht).
      destruct (ToString _); simpl; rewrite ?settled_settle, ?Hs; auto.
    + exact Hs.
    + now rewrite settled_settle, Hs.
  - unfold on_message. now rewrite settled_settle, Hs.
  - now rewrite settled_settle, Hs.
Qed.

(** The listeners keep writing to the one [response] object whatever the
    state of the promise: an [appendText] frame adds its fragment, a
    [citation] frame its record, nothing else touches it. *)
Lemma response_step (e : ws_event) (st : exchange) :
  response (step e st) =
  {| text := text (response st) ++ appended [e];
     citations := citations (response st) ++ cited [e] |}.
Proof.
  assert (Hid : forall r : ChatResult,
             r = {| text := text r ++ []; citations := citations r ++ [] |}).
  { intros [t c]; simpl. now rewrite !app_nil_r. }
  destruct e as [| [v|] | m | code]; simpl;
    rewrite ?response_settle; try apply Hid.
  unfold on_message, appended, cited; simpl. unfold has_tag, tag_of.
  open_dispatch v; simpl; rewrite ?response_settle; try apply Hid.
  - destruct (Get_defined v _ (lit "text") _ Htag) as [t Ht].
    unfold fragment_of. rewrite Ht, (field_Get _ _ _ Ht).
    tag_clash.
    destruct (ToString _); simpl; rewrite ?response_settle;
      [now rewrite !app_nil_r | apply Hid].
  - destruct (Get_defined v _ (lit "title") _ Htag) as [t Ht].
    destruct (Get_defined v _ (lit "iconUrl") _ Htag) as [i Hi].
    destruct (Get_defined v _ (lit "url") _ Htag) as [u Hu].
    unfold citation_of.
    rewrite Ht, Hi, Hu, (field_Get _ _ _ Ht), (field_Get _ _ _ Hi),
      (field_Get _ _ _ Hu).
    simpl. rewrite app_nil_r. reflexivity.
  - destruct (Get_defined v _ (lit "message") _ Htag) as [t Ht].
    rewrite Ht. destruct (ToString _); simpl; rewrite ?response_settle;
      apply Hid.
Qed.

(** ** A stream of events *)

Lemma run_app (a b : list ws_event) (st : exchange) :
  run (a ++ b) st = run b (run a st).
Proof. revert st; induction a as [|e a IH]; intros st; simpl; auto. Qed.

Lemma frames_tagged_app (tag : jsstring) (a b : list ws_event) :
  frames_tagged tag (a ++ b) = frames_tagged tag a ++ frames_tagged tag b.
Proof.
  induction a as [|e a IH]; simpl; auto.
  destruct e as [| [v|] | m | code]; auto.
  destruct (has_tag tag v); simpl; now rewrite IH.
Qed.

Lemma appended_app (a b : list ws_event) :
  appended (a ++ b) = appended a ++ appended b.
Proof.
  unfold appended. now rewrite frames_tagged_app, map_app, concat_app.
Qed.

Lemma cited_app (a b : list ws_event) : cited (a ++ b) = cited a ++ cited b.
Proof. unfold cited. now rewrite frames_tagged_app, map_app. Qed.

Lemma response_run (evs : list ws_event) (st : exchange) :
  response (run evs st) =
  {| text := text (response st) ++ appended evs;
     citations := citations (response st) ++ cited evs |}.
Proof.
  revert st; induction evs as [|e evs IH]; intros st; simpl.
  - destruct (response st); simpl. now rewrite !app_nil_r.
  - rewrite IH, response_step; simpl.
    change (e :: evs) with ([e] ++ evs).
    now rewrite appended_app, cited_app, !app_assoc.
Qed.

Lemma run_sticky (evs : list ws_event) (st : exchange) (s : settlement) :
  settled st = Some s -> settled (run evs st) = Some s.
Proof.
  revert st; induction evs as [|e evs IH]; intros st Hs; simpl; auto.
  apply IH. now apply settled_sticky.
Qed.

(** The state at the first settlement is the state after the events up to
    it; if nothing settles the promise, every event has been processed. *)
Lemma until_settled_split (evs : list ws_event) (st : exchange) :
  settled st = None ->
  match settled (until_settled evs st) with
  | Some s =>
      exists pre e post,
        evs = pre ++ e :: post /\
        settled (run pre st) = None /\
        verdict e = Some s /\
        until_settled evs st = step e (run pre st)
  | None => until_settled evs st = run evs st
  end.
Proof.
  revert st; induction evs as [|e evs IH]; intros st Hs; simpl.
  - now rewrite Hs.
  - destruct (settled (step e st)) as [s|] eqn:E.
    + rewrite E. exists [], e, evs; simpl. repeat split; auto.
      now rewrite <- (settled_step e st Hs).
    + specialize (IH _ E).
      destruct (settled (until_settled evs (step e st))) as [s|]; auto.
      destruct IH as (pre & e' & post & -> & Hpre & Hv & Heq).
      exists (e :: pre), e', post; simpl. auto.
Qed.

Lemma settled_until_settled (evs : list ws_event) (st : exchange) :
  settled (until_settled evs st) = settled (run evs st).
Proof.
  revert st; induction evs as [|e evs IH]; intros st; simpl; auto.
  destruct (settled (step e st)) as [s|] eqn:E; auto.
  now rewrite (run_sticky evs _ s E).
Qed.

(** ** Jobs *)

Lemma settled_await (js : list (list ws_event)) (st : exchange) :
  settled (await_exchange js st) = settled (run (concat js) st).
Proof.
  revert st; induction js as [|j js IH]; intros st; simpl; auto.
  rewrite run_app.
  destruct (settled (run j st)) as [s|] eqn:E; auto.
  now rewrite (run_sticky (concat js) _ s E).
Qed.

(** The caller resumes at the end of the first job that settles: what later
    jobs deliver is not awaited. *)
Lemma later_jobs_are_not_awaited (js after : list (list ws_event))
    (st : exchange) (s : settlement) :
  settled st = None ->
  settled (await_exchange js st) = Some s ->
  await_exchange (js ++ after) st = await_exchange js st.
Proof.
  revert st; induction js as [|j js IH]; intros st Hs Hw; simpl in *.
  - congruence.
  - destruct (settled (run j st)) eqn:E; auto.
Qed.

(** Where the caller finds the promise settled, one event settled it, and
    the caller sees the response as the events up to the end of that
    event's job have left it. *)
Lemma await_settled_split (js : list (list ws_event)) (st : exchange)
    (s : settlement) :
  settled st = None ->
  settled (await_exchange js st) = Some s ->
  exists pre e late post,
    concat js = pre ++ e :: late ++ post /\
    settled (run pre st) = None /\
    verdict e = Some s /\
    await_exchange js st = run (pre ++ e :: late) st.
Proof.
  revert st; induction js as [|j js IH]; intros st Hs Hw; simpl in *.
  - congruence.
  - destruct (settled (run j st)) as [s'|] eqn:E.
    + assert (s' = s) by congruence. subst s'.
      pose proof (until_settled_split j st Hs) as Hsplit.
      rewrite settled_until_settled, E in Hsplit.
      destruct Hsplit as (pre & e & post & -> & Hpre & Hv & _).
      exists pre, e, post, (concat js). repeat split; auto.
      now rewrite <- app_assoc.
    + destruct (IH _ E Hw) as (pre & e & late & post & Hc & Hpre & Hv & Heq).
      exists (j ++ pre), e, late, post. rewrite Hc, <- !app_assoc.
      repeat split; auto.
      * now rewrite run_app.
      * now rewrite Heq, <- run_app.
Qed.

End OneExchange.

(** ** Terminal and quiet events *)

Lemma has_tag_VStr (tag : jsstring) (v : value) :
  has_tag tag v = true -> tag_of v = Some (VStr tag).
Proof.
  unfold has_tag. destruct (tag_of v) as [t|]; [|discriminate].
  intros H. now rewrite (strict_eq_str_true _ _ H).
Qed.

Lemma has_tag_unique (a b : jsstring) (v : value) :
  has_tag a v = true -> has_tag b v = JsString.eqb a b.
Proof.
  intros H. unfold has_tag. now rewrite (has_tag_VStr _ _ H).
Qed.

Lemma done_verdict (d : value) :
  has_tag (lit "done") d = true -> verdict (WsMessage (Some d)) = Some Resolved.
Proof.
  intros H. unfold verdict, malformed.
  rewrite (has_tag_VStr _ _ H), (has_tag_unique _ (lit "appendText") _ H), H.
  reflexivity.
Qed.

Lemma verdict_resolved (e : ws_event) :
  verdict e = Some Resolved ->
  is_frame (lit "done") e = true /\ appended [e] = [] /\ cited [e] = [].
Proof.
  destruct e as [| [v|] | m | code]; simpl; try discriminate.
  destruct (tag_of v) as [t|] eqn:Ht; [|discriminate].
  destruct (has_tag (lit "appendText") v &&
            match ToString (or_else (field v (lit "text")) (VStr [])) with
            | Some _ => false | None => true end); [discriminate|].
  destruct (has_tag (lit "done") v) eqn:Hd.
  - intros _. unfold appended, cited; simpl.
    now rewrite (has_tag_unique _ (lit "appendText") _ Hd),
      (has_tag_unique _ (lit "citation") _ Hd).
  - destruct (has_tag (lit "error") v); [|discriminate].
    destruct (ToString _); discriminate.
Qed.

Lemma quiet_not_done (e : ws_event) :
  quiet e = true -> is_frame (lit "done") e = false.
Proof.
  unfold quiet. destruct e as [| [v|] | m | code]; try reflexivity.
  cbn [is_frame]. destruct (has_tag (lit "done") v) eqn:Hd; auto.
  now rewrite (done_verdict v Hd).
Qed.

Lemma before_done_quiet (pre : list ws_event) (e : ws_event)
    (post : list ws_event) :
  forallb quiet pre = true -> is_frame (lit "done") e = true ->
  before_done (pre ++ e :: post) = pre.
Proof.
  intros Hq He. induction pre as [|a pre IH]; simpl in *.
  - now rewrite He.
  - apply andb_true_iff in Hq as [Ha Hq].
    rewrite (quiet_not_done a Ha). f_equal. auto.
Qed.

Section Streams.

Variables (mode id : value) (message : jsstring).

Local Abbreviation step := (on_event mode id message).
Local Abbreviation run := (run mode id message).
Local Abbreviation until_settled := (until_settled mode id message).
Local Abbreviation await_exchange := (await_exchange mode id message).

(** A promise is pending after a stream exactly when every event of the
    stream is quiet. *)
Lemma pending_iff_quiet (evs : list ws_event) (st : exchange) :
  settled st = None ->
  settled (run evs st) = None <-> forallb quiet evs = true.
Proof.
  revert st; induction evs as [|e evs IH]; intros st Hs; simpl.
  - tauto.
  - pose proof (settled_step mode id message e st Hs) as Hstep.
    unfold quiet at 1. destruct (verdict e) as [s|] eqn:Hv; simpl.
    + rewrite (run_sticky mode id message evs _ s Hstep).
      split; discriminate.
    + now apply IH.
Qed.

Lemma await_nothing (js : list (list ws_event)) (st : exchange) :
  concat js = [] -> await_exchange js st = st.
Proof.
  induction js as [|j js IH]; simpl; auto.
  intros H. apply app_eq_nil in H as [-> H]. simpl.
  destruct (settled st); auto.
Qed.

(** When the stream ends with the event that settles the promise, the
    caller finds the state that the whole stream leaves, however the events
    are spread over jobs. *)
Lemma await_whole_stream (js : list (list ws_event)) (st : exchange)
    (pre : list ws_event) (e : ws_event) :
  concat js = pre ++ [e] -> forallb quiet pre = true ->
  settled st = None ->
  await_exchange js st = run (pre ++ [e]) st.
Proof.
  revert st pre; induction js as [|j js IH]; intros st pre Hc Hq Hs;
    simpl in *.
  - now destruct pre.
  - destruct (concat js) as [|x l] eqn:Hrest.
    + rewrite app_nil_r in Hc. subst j.
      rewrite (await_nothing js _ Hrest).
      destruct (settled (run (pre ++ [e]) st)); reflexivity.
    + destruct (exists_last (l := x :: l)) as (l' & e' & Hl); [discriminate|].
      rewrite Hl, app_assoc in Hc. apply app_inj_tail in Hc as [<- ->].
      rewrite forallb_app in Hq. apply andb_true_iff in Hq as [Hj Hl'].
      pose proof (proj2 (pending_iff_quiet j st Hs) Hj) as Hpj.
      rewrite Hpj, <- app_assoc, run_app.
      apply IH; auto.
Qed.

End Streams.

Lemma verdict_cases (e : ws_event) (s : settlement) :
  verdict e = Some s ->
  (is_frame (lit "done") e = true /\ s = Resolved) \/
  (is_frame (lit "error") e = true /\ exists m, s = Rejected m) \/
  (malformed e = true /\ s = Rejected process_failed) \/
  (exists m, e = WsError m /\ s = Rejected (lit "WebSocket error: " ++ m)).
Proof.
  destruct e as [| [v|] | m | code]; try discriminate.
  - unfold verdict. destruct (malformed (WsMessage (Some v))) eqn:Hm.
    + intros [= <-]. auto.
    + cbn [is_frame]. destruct (has_tag (lit "done") v).
      * intros [= <-]. auto.
      * destruct (has_tag (lit "error") v); [|discriminate].
        intros H. right; left. split; auto.
        destruct (ToString _); injection H as <-; eauto.
  - intros [= <-]. auto.
  - intros [= <-]. right; right; right. eauto.
Qed.

(** ** The value of the exchange *)

(** At the moment the promise of an exchange is resolved, the [text] of the
    response object is the concatenation, in arrival order, of the fragments
    of the [appendText] frames received before the [done] frame, and
    [citations] holds the record of each [citation] frame received before it.
    What the caller of [chat] reads later is stated further down. *)
Theorem resolved_text_is_ordered_concatenation
    (mode id : value) (message : jsstring) (effects : list effect)
    (evs : list ws_event) :
  settled (until_settled mode id message evs (fresh effects)) = Some Resolved ->
  text (response (until_settled mode id message evs (fresh effects)))
    = appended (before_done evs) /\
  citations (response (until_settled mode id message evs (fresh effects)))
    = cited (before_done evs).
Proof.
  intros Hres.
  pose proof (until_settled_split mode id message evs (fresh effects) eq_refl)
    as Hsplit.
  rewrite Hres in Hsplit.
  destruct Hsplit as (pre & e & post & -> & Hpre & Hv & ->).
  apply verdict_resolved in Hv as (Hdone & Happ & Hcit).
  apply pending_iff_quiet in Hpre; [|reflexivity].
  rewrite (before_done_quiet pre e post Hpre Hdone).
  rewrite response_step, response_run; simpl.
  now rewrite Happ, Hcit, !app_nil_r.
Qed.

Lemma resolved_text_is_ordered_concatenation_witness :
  let evs := [ WsOpen;
               WsMessage (Some (appendText_frame (lit "Hi")));
               WsMessage (Some (citation_frame (lit "T") (lit "I") (lit "U")));
               WsMessage (Some (VObj [ (lit "event", VStr (lit "titleUpdate")) ]));
               WsMessage (Some (appendText_frame (lit " there")));
               WsMessage (Some done_frame);
               WsMessage (Some (appendText_frame (lit "late"))) ] in
  let st := until_settled (VStr (lit "chat")) (VStr (lit "c1")) (lit "q") evs
              (fresh []) in
  settled st = Some Resolved /\
  text (response st) = lit "Hi there" /\
  citations (response st)
    = [ {| title := VStr (lit "T"); icon := VStr (lit "I");
           url := VStr (lit "U") |} ].
Proof.
  intros evs st. split; [reflexivity|].
  exact (resolved_text_is_ordered_concatenation
           (VStr (lit "chat")) (VStr (lit "c1")) (lit "q") [] evs eq_refl).
Defined.

Section Await.

Variables (mode id : value) (message : jsstring).

(** What the awaiting caller finds settled was settled by one event; the
    response it reads holds everything that arrived up to the end of that
    event's job. *)
Lemma await_classification (js : list (list ws_event))
    (effects : list effect) (s : settlement) :
  settled (await_exchange mode id message js (fresh effects)) = Some s ->
  exists pre e late post,
    concat js = pre ++ e :: late ++ post /\
    forallb quiet pre = true /\
    verdict e = Some s /\
    response (await_exchange mode id message js (fresh effects))
      = {| text := appended pre ++ appended [e] ++ appended late;
           citations := cited pre ++ cited [e] ++ cited late |}.
Proof.
  intros Hs.
  destruct (await_settled_split mode id message js (fresh effects) s
              eq_refl Hs) as (pre & e & late & post & Hc & Hpre & Hv & Heq).
  exists pre, e, late, post. repeat split; auto.
  - now apply pending_iff_quiet in Hpre.
  - rewrite Heq, response_run; simpl.
    change (e :: late) with ([e] ++ late).
    now rewrite !appended_app, !cited_app.
Qed.

End Await.

(** C8.  The caller of [chat] is handed nothing before a terminal event: if
    the awaited exchange is settled, the stream holds an event before which
    the promise was pending and which is a [done] frame (then the promise is
    resolved, and the result holds every fragment and citation received
    before it), an [error] frame, a frame that cannot be processed, or a
    socket error (then it is rejected). *)
Theorem result_only_after_terminal_event
    (mode id : value) (message : jsstring) (effects : list effect)
    (js : list (list ws_event)) (s : settlement) :
  settled (await_exchange mode id message js (fresh effects)) = Some s ->
  exists pre e late post,
    concat js = pre ++ e :: late ++ post /\
    forallb quiet pre = true /\
    ((is_frame (lit "done") e = true /\ s = Resolved /\
      text (response (await_exchange mode id message js (fresh effects)))
        = appended pre ++ appended late /\
      citations (response (await_exchange mode id message js (fresh effects)))
        = cited pre ++ cited late) \/
     (is_frame (lit "error") e = true /\ exists m, s = Rejected m) \/
     (malformed e = true /\ s = Rejected process_failed) \/
     (exists m, e = WsError m /\ s = Rejected (lit "WebSocket error: " ++ m))).
Proof.
  intros Hs.
  destruct (await_classification mode id message js effects s Hs)
    as (pre & e & late & post & Hc & Hq & Hv & Hr).
  exists pre, e, late, post. repeat split; auto.
  destruct (verdict_cases e s Hv) as [[Hd ->] | [He | [Hm | Hw]]]; auto.
  left. rewrite Hr; simpl.
  destruct (verdict_resolved e Hv) as (_ & -> & ->). auto.
Qed.

Lemma result_only_after_terminal_event_witness :
  let js := [ [WsOpen];
              [WsMessage (Some (appendText_frame (lit "Hi")));
               WsMessage (Some (VObj [ (lit "event", VStr (lit "received")) ]))];
              [WsMessage (Some done_frame)];
              [WsClosed 1000] ] in
  settled (await_exchange (VStr (lit "chat")) (VStr (lit "c1")) (lit "q") js
             (fresh [])) = Some Resolved /\
  exists pre e late post,
    concat js = pre ++ e :: late ++ post /\
    forallb quiet pre = true /\
    ((is_frame (lit "done") e = true /\ Resolved = Resolved /\
      text (response (await_exchange (VStr (lit "chat")) (VStr (lit "c1"))
                        (lit "q") js (fresh [])))
        = appended pre ++ appended late /\
      citations (response (await_exchange (VStr (lit "chat")) (VStr (lit "c1"))
                             (lit "q") js (fresh [])))
        = cited pre ++ cited late) \/
     (is_frame (lit "error") e = true /\ exists m, Resolved = Rejected m) \/
     (malformed e = true /\ Resolved = Rejected process_failed) \/
     (exists m, e = WsError m /\ Resolved = Rejected (lit "WebSocket error: " ++ m))).
Proof.
  intros js. split; [reflexivity|].
  exact (result_only_after_terminal_event
           (VStr (lit "chat")) (VStr (lit "c1")) (lit "q") [] js Resolved
           eq_refl).
Defined.

(** ** [chat] *)

Lemma ensure_keeps_models (c : Copilot) (o : axios_outcome) (c1 : Copilot)
    (calls : list effect) (thrown : option jsstring) :
  ensure_conversation c o = (c1, calls, thrown) ->
  models c1 = models c /\ headers c1 = headers c.
Proof.
  unfold ensure_conversation, createConversation.
  destruct (truthy (conversationId c)).
  - intros [= <- _ _]. auto.
  - destruct (axios_post o) as [m|data].
    + intros [= <- _ _]. auto.
    + destruct (Get data (lit "id")); intros [= <- _ _]; auto.
Qed.

Lemma ensure_created (c : Copilot) (o : axios_outcome) (data idv : value) :
  truthy (conversationId c) = false ->
  axios_post o = inr data -> Get data (lit "id") = Some idv ->
  ensure_conversation c o =
  (set_conversationId c idv, [AxiosPost conversations_url (headers c)], None).
Proof.
  intros Hc Hpost Hid. unfold ensure_conversation, createConversation.
  now rewrite Hc, Hpost, Hid.
Qed.

(** Past the identity and the selector, [chat] is the exchange. *)
Lemma chat_exchange (c : Copilot) (message : jsstring) (w : backend)
    (c1 : Copilot) (calls : list effect) :
  ensure_conversation c (creation w) = (c1, calls, None) ->
  models c = models new_Copilot ->
  chat c message None w =
  let st := await_exchange (VStr (lit "chat")) (conversationId c1) message
              (jobs w) (fresh (calls ++ [WsConnect chat_url (headers c1)])) in
  (c1, trace st, outcome_of st).
Proof.
  intros He Hm. unfold chat. rewrite He.
  destruct (ensure_keeps_models _ _ _ _ _ He) as [-> _]. rewrite Hm.
  reflexivity.
Qed.

(** ** The route, past validation *)

Lemma optimized_route (c : Copilot) (body : value) (w : backend) (t : clock)
    (query : value) (prompt : jsstring) :
  Get body (lit "query") = Some query ->
  rejects_query query = false ->
  Optimized.finalPrompt (field body (lit "customModel"))
    (field body (lit "language")) (as_string query) = inr prompt ->
  Optimized.post_api_ai c body w t =
  (fst (chat c prompt None w),
   Optimized.respond (as_string query) prompt (field body (lit "customModel"))
     (field body (lit "language")) t (snd (chat c prompt None w))).
Proof.
  intros Hq Hv Hp. unfold Optimized.post_api_ai.
  destruct (Get_defined body _ (lit "customModel") _ Hq) as [cm Hcm].
  destruct (Get_defined body _ (lit "language") _ Hq) as [lg Hlg].
  rewrite (field_Get _ _ _ Hcm), (field_Get _ _ _ Hlg) in Hp.
  rewrite Hq, Hcm, Hlg, Hv, Hp, (field_Get _ _ _ Hcm), (field_Get _ _ _ Hlg).
  now destruct (chat c prompt None w) as [[c' effs] out].
Qed.

Lemma index_route (body : value) (w : backend) (t : clock) (query : value) :
  Get body (lit "query") = Some query ->
  rejects_query query = false ->
  Index.post_api_ai body w t =
  (snd (fst (chat new_Copilot (as_string query) None w)),
   Index.respond (as_string query) t
     (snd (chat new_Copilot (as_string query) None w))).
Proof.
  intros Hq Hv. unfold Index.post_api_ai. rewrite Hq, Hv.
  now destruct (chat new_Copilot (as_string query) None w) as [[c' effs] out].
Qed.

(** ** A stream that ends with [done] *)

Section DoneAlone.

Variables (w : backend) (pre : list ws_event) (d : value).

Hypothesis stream : concat (jobs w) = pre ++ [WsMessage (Some d)].
Hypothesis done : has_tag (lit "done") d = true.
Hypothesis no_terminal_before : forallb quiet pre = true.


End DoneAlone.



(** ** The scenario of the specification *)



(** ** Validation of the query *)

Lemma rejected_request (c : Copilot) (body : value) (w : backend) (t : clock)
    (query : value) :
  Get body (lit "query") = Some query ->
  rejects_query query = true ->
  Optimized.post_api_ai c body w t = (c, [], Replied 400 bad_request) /\
  Index.post_api_ai body w t = ([], Replied 400 bad_request).
Proof.
  intros Hq Hv. unfold Optimized.post_api_ai, Index.post_api_ai.
  destruct (Get_defined body _ (lit "customModel") _ Hq) as [cm ->].
  destruct (Get_defined body _ (lit "language") _ Hq) as [lg ->].
  now rewrite Hq, Hv.
Qed.

(** C3.  When the [query] field of the body is missing, or is a string that
    is blank after trimming, both routes answer 400 with [success: false] and
    an error message, and nothing is sent to the backend: no request for a
    conversation, no socket. *)
Theorem blank_query_is_rejected
    (c : Copilot) (body : value) (w : backend) (t : clock) (query : value) :
  Get body (lit "query") = Some query ->
  query = VUndefined \/ (exists s, query = VStr s /\ JsString.trim s = []) ->
  Optimized.post_api_ai c body w t = (c, [], Replied 400 bad_request) /\
  Index.post_api_ai body w t = ([], Replied 400 bad_request) /\
  Get bad_request (lit "success") = Some (VBool false) /\
  Get bad_request (lit "error")
    = Some (VStr (lit "Bad Request: 'query' field is missing or empty.")).
Proof.
  intros Hq Hblank.
  assert (Hv : rejects_query query = true).
  { destruct Hblank as [-> | (s & -> & Hs)]; [reflexivity|].
    unfold rejects_query. rewrite Hs. simpl. apply orb_true_r. }
  destruct (rejected_request c body w t query Hq Hv) as [Ho Hi].
  repeat split; auto.
Qed.

Lemma blank_query_is_rejected_witness :
  let body := VObj [ (lit "query", VStr (lit "   " ++ JsString.nl));
                     (lit "language", VStr (lit "English")) ] in
  let w := {| creation := created (lit "c1"); jobs := [halo_stream] |} in
  Optimized.post_api_ai new_Copilot body w noon
    = (new_Copilot, [], Replied 400 bad_request) /\
  Index.post_api_ai body w noon = ([], Replied 400 bad_request) /\
  Get bad_request (lit "success") = Some (VBool false) /\
  Get bad_request (lit "error")
    = Some (VStr (lit "Bad Request: 'query' field is missing or empty.")).
Proof.
  intros body w.
  refine (blank_query_is_rejected new_Copilot body w noon
            (VStr (lit "   " ++ JsString.nl)) eq_refl _).
  right. exists (lit "   " ++ JsString.nl). split; reflexivity.
Defined.

(** C9.  When the [query] field of the body is present and is not a string
    (a number, a boolean, [null], an object, an array), both routes answer
    400 with the body they give for a missing query, and nothing is sent to
    the backend. *)
Theorem non_string_query_is_rejected
    (c : Copilot) (body : value) (w : backend) (t : clock) (query : value) :
  Get body (lit "query") = Some query ->
  query <> VUndefined ->
  is_string query = false ->
  Optimized.post_api_ai c body w t = (c, [], Replied 400 bad_request) /\
  Index.post_api_ai body w t = ([], Replied 400 bad_request) /\
  (forall body', Get body' (lit "query") = Some VUndefined ->
     Optimized.post_api_ai c body' w t = Optimized.post_api_ai c body w t /\
     Index.post_api_ai body' w t = Index.post_api_ai body w t) /\
  Get bad_request (lit "success") = Some (VBool false).
Proof.
  intros Hq _ Hs.
  assert (Hv : rejects_query query = true).
  { unfold rejects_query. rewrite Hs. simpl. now rewrite orb_true_r. }
  destruct (rejected_request c body w t query Hq Hv) as [Ho Hi].
  repeat split; auto.
  - destruct (rejected_request c body' w t VUndefined H eq_refl) as [Ho' _].
    congruence.
  - destruct (rejected_request c body' w t VUndefined H eq_refl) as [_ Hi'].
    congruence.
Qed.

Lemma non_string_query_is_rejected_witness :
  let body := VObj [ (lit "query", VArr [VStr (lit "Halo")]) ] in
  let w := {| creation := created (lit "c1"); jobs := [halo_stream] |} in
  Optimized.post_api_ai new_Copilot body w noon
    = (new_Copilot, [], Replied 400 bad_request) /\
  Index.post_api_ai body w noon = ([], Replied 400 bad_request).
Proof.
  intros body w.
  pose proof (non_string_query_is_rejected new_Copilot body w noon
                (VArr [VStr (lit "Halo")]) eq_refl) as H.
  destruct H as (Ho & Hi & _); [discriminate | reflexivity |].
  split; assumption.
Defined.

(** ** The prompt *)

(** C10.  A persona that is a string blank after trimming adds no instruction:
    the prompt is the language instruction, the delimiter and the query, the
    prompt of a request without [customModel], and that prompt is what the
    route hands to [chat]. *)
Theorem blank_persona_is_absent
    (c : Copilot) (body : value) (w : backend) (t : clock)
    (query : value) (s l : jsstring) :
  Get body (lit "query") = Some query ->
  rejects_query query = false ->
  Get body (lit "customModel") = Some (VStr s) ->
  JsString.trim s = [] ->
  ToString (Optimized.outputLanguage (field body (lit "language"))) = Some l ->
  let prompt :=
    Optimized.language_instruction l ++ Optimized.delimiter ++ as_string query in
  Optimized.finalPrompt (VStr s) (field body (lit "language")) (as_string query)
    = inr prompt /\
  Optimized.finalPrompt VUndefined (field body (lit "language"))
    (as_string query) = inr prompt /\
  fst (Optimized.post_api_ai c body w t) = fst (chat c prompt None w).
Proof.
  intros Hq Hv Hcm Hs Hl prompt.
  assert (Hp : Optimized.finalPrompt (VStr s) (field body (lit "language"))
                 (as_string query) = inr prompt).
  { unfold Optimized.finalPrompt, Optimized.persona. rewrite Hs, Hl.
    now destruct s. }
  repeat split; auto.
  - unfold Optimized.finalPrompt. simpl. now rewrite Hl.
  - rewrite (optimized_route c body w t query prompt Hq Hv); auto.
    now rewrite (field_Get _ _ _ Hcm).
Qed.

Lemma blank_persona_is_absent_witness :
  let body := VObj [ (lit "query", VStr (lit "Halo"));
                     (lit "customModel", VStr (lit "  ")) ] in
  let w := {| creation := created (lit "c1"); jobs := [halo_stream] |} in
  let prompt :=
    lit "Anda harus menjawab secara eksklusif dalam Bahasa Indonesia."
      ++ JsString.nl ++ JsString.nl ++ lit "---" ++ JsString.nl ++ JsString.nl
      ++ lit "PERTANYAAN:" ++ JsString.nl ++ lit "Halo" in
  Optimized.finalPrompt (VStr (lit "  ")) VUndefined (lit "Halo") = inr prompt /\
  Optimized.finalPrompt VUndefined VUndefined (lit "Halo") = inr prompt /\
  fst (Optimized.post_api_ai new_Copilot body w noon)
    = fst (chat new_Copilot prompt None w).
Proof.
  intros body w prompt.
  exact (blank_persona_is_absent new_Copilot body w noon (VStr (lit "Halo"))
           (lit "  ") (lit "Indonesia") eq_refl eq_refl eq_refl eq_refl eq_refl).
Defined.

(** ** Failures *)

Lemma error_verdict (frame : value) (msg : jsstring) :
  has_tag (lit "error") frame = true ->
  (field frame (lit "message") = VStr msg /\ msg <> []) \/
  (field frame (lit "message") = VUndefined /\ msg = unknown_error) ->
  verdict (WsMessage (Some frame)) = Some (Rejected msg).
Proof.
  intros He Hmsg. unfold verdict, malformed.
  rewrite (has_tag_VStr _ _ He), (has_tag_unique _ (lit "appendText") _ He),
    (has_tag_unique _ (lit "done") _ He), He.
  simpl. destruct Hmsg as [[-> Hne] | [-> ->]]; [|reflexivity].
  now destruct msg.
Qed.

(** C5.  An [error] frame that arrives while the promise is pending rejects
    [chat] with the message the frame carries, or with the fixed message
    "An unknown error occurred during the AI chat." when it carries none,
    whatever arrives afterwards; the route then answers 500 with that message
    in the [message] field. *)
Theorem error_frame_is_reported_verbatim
    (c : Copilot) (body : value) (w : backend) (t : clock) (query : value)
    (prompt : jsstring) (c1 : Copilot) (calls : list effect)
    (pre : list ws_event) (frame : value) (post : list ws_event)
    (msg : jsstring) :
  Get body (lit "query") = Some query ->
  rejects_query query = false ->
  Optimized.finalPrompt (field body (lit "customModel"))
    (field body (lit "language")) (as_string query) = inr prompt ->
  models c = models new_Copilot ->
  ensure_conversation c (creation w) = (c1, calls, None) ->
  concat (jobs w) = pre ++ WsMessage (Some frame) :: post ->
  forallb quiet pre = true ->
  has_tag (lit "error") frame = true ->
  (field frame (lit "message") = VStr msg /\ msg <> []) \/
  (field frame (lit "message") = VUndefined /\ msg = unknown_error) ->
  exists effects,
    chat c prompt None w = (c1, effects, Failed msg) /\
    Optimized.post_api_ai c body w t
      = (c1, effects, Replied 500 (server_error msg)) /\
    Get (server_error msg) (lit "message") = Some (VStr msg).
Proof.
  intros Hq Hv Hp Hm He Hs Hquiet Herr Hmsg.
  pose proof (chat_exchange c prompt w c1 calls He Hm) as Hchat.
  cbv zeta in Hchat.
  set (st0 := fresh (calls ++ [WsConnect chat_url (headers c1)])) in *.
  set (st := await_exchange (VStr (lit "chat")) (conversationId c1) prompt
               (jobs w) st0) in *.
  assert (Hset : settled st = Some (Rejected msg)).
  { unfold st. rewrite settled_await, Hs, run_app. cbn [run].
    apply run_sticky.
    rewrite settled_step by (now apply pending_iff_quiet).
    now apply error_verdict. }
  assert (Hout : outcome_of st = Failed msg)
    by (unfold outcome_of; now rewrite Hset).
  rewrite Hout in Hchat.
  exists (trace st). repeat split; auto.
  rewrite (optimized_route c body w t query prompt Hq Hv Hp), Hchat.
  reflexivity.
Qed.

Lemma error_frame_is_reported_verbatim_witness :
  let w := {| creation := created (lit "c1");
              jobs := [ [WsOpen; WsMessage (Some (appendText_frame (lit "Hi")))];
                        [WsMessage (Some (error_frame (lit "quota exceeded")));
                         WsMessage (Some done_frame)] ] |} in
  exists effects,
    chat new_Copilot
      (Optimized.language_instruction (lit "Indonesia")
         ++ Optimized.delimiter ++ lit "Halo") None w
      = (set_conversationId new_Copilot (VStr (lit "c1")), effects,
         Failed (lit "quota exceeded")) /\
    Optimized.post_api_ai new_Copilot halo_body w noon
      = (set_conversationId new_Copilot (VStr (lit "c1")), effects,
         Replied 500 (server_error (lit "quota exceeded"))) /\
    Get (server_error (lit "quota exceeded")) (lit "message")
      = Some (VStr (lit "quota exceeded")).
Proof.
  intros w.
  refine (error_frame_is_reported_verbatim new_Copilot halo_body w noon
            (VStr (lit "Halo")) _ _ _
            [WsOpen; WsMessage (Some (appendText_frame (lit "Hi")))]
            (error_frame (lit "quota exceeded"))
            [WsMessage (Some done_frame)] (lit "quota exceeded")
            eq_refl eq_refl eq_refl eq_refl eq_refl eq_refl eq_refl eq_refl _).
  left. split; [reflexivity | discriminate].
Defined.

Section Trace.

Variables (mode id : value) (message : jsstring).

(** Effects are only ever added at the end. *)
Lemma trace_step (e : ws_event) (st : exchange) :
  exists more, trace (on_event mode id message e st) = trace st ++ more.
Proof.
  assert (Hnil : forall s : exchange, exists more, trace s = trace s ++ more)
    by (intros s; exists []; now rewrite app_nil_r).
  destruct e as [| [v|] | m | code]; simpl; rewrite ?trace_settle; auto.
  - rewrite <- app_assoc. eauto.
  - unfold on_message. open_dispatch v; simpl; rewrite ?trace_settle; auto.
    + destruct (Get v (lit "text")); rewrite ?trace_settle; auto.
      destruct (ToString _); simpl; rewrite ?trace_settle; auto.
    + destruct (Get v (lit "title")), (Get v (lit "iconUrl")),
        (Get v (lit "url")); simpl; rewrite ?trace_settle; auto.
    + eauto.
    + destruct (Get v (lit "message")); rewrite ?trace_settle; auto.
      destruct (ToString _); simpl; rewrite ?trace_settle; eauto.
Qed.

Lemma trace_run (evs : list ws_event) (st : exchange) :
  exists more, trace (run mode id message evs st) = trace st ++ more.
Proof.
  revert st; induction evs as [|e evs IH]; intros st; simpl.
  - exists []. now rewrite app_nil_r.
  - destruct (IH (on_event mode id message e st)) as [m2 ->].
    destruct (trace_step e st) as [m1 ->].
    rewrite <- app_assoc. eauto.
Qed.

Lemma trace_await (js : list (list ws_event)) (st : exchange) :
  exists more, trace (await_exchange mode id message js st) = trace st ++ more.
Proof.
  revert st; induction js as [|j js IH]; intros st; simpl.
  - exists []. now rewrite app_nil_r.
  - destruct (settled (run mode id message j st)); [apply trace_run|].
    destruct (IH (run mode id message j st)) as [m2 ->].
    destruct (trace_run j st) as [m1 ->].
    rewrite <- app_assoc. eauto.
Qed.

End Trace.

(** A call of [chat] on an adapter without an identity starts with the
    request for one. *)
Lemma chat_requests_conversation (c : Copilot) (message : jsstring)
    (model : option jsstring) (w : backend) :
  truthy (conversationId c) = false ->
  exists c' rest out,
    chat c message model w
      = (c', AxiosPost conversations_url (headers c) :: rest, out).
Proof.
  intros Hc. unfold chat, ensure_conversation. rewrite Hc.
  destruct (createConversation c (creation w)) as [c1 [m|idv]]; [eauto|].
  destruct (truthy (field (VObj (models c1)) _)); [|eauto].
  match goal with
  | |- context [trace (await_exchange ?m ?i ?msg ?js ?st)] =>
      destruct (trace_await m i msg js st) as [more ->]
  end.
  simpl. eauto.
Qed.

(** C6.  When the request for a conversation fails, by a network error or by
    a status outside 200..299, [chat] fails with "Failed to create a new
    conversation with the AI service.", opens no socket and leaves the adapter
    as it was, identity included; the next call on that adapter starts with a
    request for a conversation again. *)
Theorem failed_creation_is_not_cached
    (c : Copilot) (message : jsstring) (model : option jsstring) (w : backend) :
  truthy (conversationId c) = false ->
  (exists m, creation w = NetworkError m) \/
  (exists status data,
     creation w = HttpResponse status data /\ (status < 200 \/ 300 <= status)) ->
  chat c message model w
    = (c, [AxiosPost conversations_url (headers c)], Failed create_failed) /\
  forall message' model' w',
  exists c' rest out,
    chat (fst (fst (chat c message model w))) message' model' w'
      = (c', AxiosPost conversations_url (headers c) :: rest, out).
Proof.
  intros Hc Hfail.
  assert (Hpost : exists m, axios_post (creation w) = inl m).
  { destruct Hfail as [[m ->] | (status & data & -> & Hst)]; simpl; eauto.
    destruct ((200 <=? status) && (status <? 300)) eqn:E; eauto.
    apply andb_true_iff in E as [E1 E2].
    apply N.leb_le in E1. apply N.ltb_lt in E2. lia. }
  destruct Hpost as [m Hpost].
  assert (Hchat : chat c message model w
                  = (c, [AxiosPost conversations_url (headers c)],
                     Failed create_failed)).
  { unfold chat, ensure_conversation, createConversation.
    now rewrite Hc, Hpost. }
  split; [exact Hchat|].
  intros message' model' w'. rewrite Hchat. simpl.
  now apply chat_requests_conversation.
Qed.

Lemma failed_creation_is_not_cached_witness :
  let w := {| creation := HttpResponse 503 (VStr (lit "Service Unavailable"));
              jobs := [halo_stream] |} in
  chat new_Copilot (lit "Halo") None w
    = (new_Copilot, [AxiosPost conversations_url (headers new_Copilot)],
       Failed create_failed) /\
  forall message' model' w',
  exists c' rest out,
    chat (fst (fst (chat new_Copilot (lit "Halo") None w))) message' model' w'
      = (c', AxiosPost conversations_url (headers new_Copilot) :: rest, out).
Proof.
  intros w.
  refine (failed_creation_is_not_cached new_Copilot (lit "Halo") None w
            eq_refl _).
  right. exists 503, (VStr (lit "Service Unavailable")).
  split; [reflexivity | right; lia].
Defined.

(** ** The model selector *)

Example available_models_text :
  available_models new_Copilot
    = lit "Available models: default, think-deeper, gpt-5".
Proof. reflexivity. Qed.

(** X14.  A selector that names neither a key of the mapping nor a property
    of [Object.prototype] makes [chat] fail with the list of the models, after the
    conversation identity is settled and before any socket is opened. *)
Lemma unknown_selector_fails (c : Copilot) (message selector : jsstring)
    (w : backend) (c1 : Copilot) (calls : list effect) :
  ensure_conversation c (creation w) = (c1, calls, None) ->
  own (models c) selector = None ->
  inherited selector = VUndefined ->
  chat c message (Some selector) w = (c1, calls, Failed (available_models c)) /\
  (forall target hs, ~ In (WsConnect target hs) calls).
Proof.
  intros He Hown Hinh. split.
  - unfold chat, available_models, model_names. rewrite He.
    destruct (ensure_keeps_models _ _ _ _ _ He) as [-> _].
    unfold field, Get. now rewrite Hown, Hinh.
  - intros target hs Hin. revert He. unfold ensure_conversation.
    destruct (truthy (conversationId c)).
    + intros [= _ <- ]. inversion Hin.
    + destruct (createConversation c (creation w)) as [c' [m|idv]];
        intros [= _ <-]; destruct Hin as [Hin|[]]; discriminate.
Qed.

(** C4, at the selector ["constructor"].  It is not a key of the model
    mapping, yet [this.models[model]] finds [Object.prototype.constructor],
    which is truthy: [chat] does not fail, it opens the socket, sends the
    message with that function as [mode], and is resolved. *)
Theorem inherited_selector_passes_validation :
  let w := {| creation := created (lit "c1");
              jobs := [ [WsOpen]; [WsMessage (Some done_frame)] ] |} in
  own (models new_Copilot) (lit "constructor") = None /\
  chat new_Copilot (lit "Halo") (Some (lit "constructor")) w
    = (set_conversationId new_Copilot (VStr (lit "c1")),
       [ AxiosPost conversations_url (headers new_Copilot);
         WsConnect chat_url (headers new_Copilot);
         WsSend set_options_frame;
         WsSend (send_frame (VNative (lit "constructor")) (VStr (lit "c1"))
                   (lit "Halo"));
         WsCloseCall ],
       Fulfilled empty_response).
Proof. split; reflexivity. Qed.

(** ** The response object is shared *)

(** [resolve(response)] hands over the object, not a copy, and the message
    listener stays registered: a frame dispatched after [done] in the same job
    still writes to the object, and the caller, which resumes after the job,
    reads it.  The statements above that speak of what the caller receives are
    about streams in which [done] comes last. *)
Example late_frame_reaches_the_caller :
  let w := {| creation := created (lit "c1");
              jobs := [ [WsOpen];
                        [WsMessage (Some done_frame);
                         WsMessage (Some (appendText_frame (lit "late")))] ] |} in
  snd (chat new_Copilot (lit "Halo") None w)
    = Fulfilled {| text := lit "late"; citations := [] |}.
Proof. reflexivity. Qed.

(** With no terminal event in the stream the caller waits for ever. *)
Lemma pending_without_terminal_event (mode id : value) (message : jsstring)
    (js : list (list ws_event)) (effects : list effect) :
  forallb quiet (concat js) = true ->
  outcome_of (await_exchange mode id message js (fresh effects)) = Pending.
Proof.
  intros Hq. unfold outcome_of. rewrite settled_await.
  now rewrite (proj2 (pending_iff_quiet mode id message (concat js)
                        (fresh effects) eq_refl) Hq).
Qed.

(** * Further properties of the adapter and of the routes *)

(** ** What the listeners do to the socket *)

Section Emitted.

Variables (mode id : value) (message : jsstring).

Lemma trace_step_emitted (e : ws_event) (st : exchange) :
  trace (on_event mode id message e st) = trace st ++ emitted mode id message e.
Proof.
  destruct e as [| [v|] | m | code]; simpl;
    rewrite ?trace_settle, ?app_nil_r; auto.
  - now rewrite <- app_assoc.
  - unfold on_message, emitted, closing, has_tag, tag_of.
    open_dispatch v; simpl; rewrite ?trace_settle, ?app_nil_r; auto.
    + destruct (Get_defined v _ (lit "text") _ Htag) as [t ->].
      tag_clash.
      destruct (ToString _); simpl; rewrite ?trace_settle, ?app_nil_r; auto.
    + destruct (Get_defined v _ (lit "title") _ Htag) as [t ->].
      destruct (Get_defined v _ (lit "iconUrl") _ Htag) as [i ->].
      destruct (Get_defined v _ (lit "url") _ Htag) as [u ->].
      tag_clash. simpl. now rewrite app_nil_r.
    + destruct (Get_defined v _ (lit "message") _ Htag) as [t Ht].
      rewrite Ht, (field_Get _ _ _ Ht). unfold printable.
      destruct (ToString _); simpl; rewrite ?trace_settle, ?app_nil_r; auto.
Qed.

Lemma trace_run_emitted (evs : list ws_event) (st : exchange) :
  trace (run mode id message evs st)
    = trace st ++ flat_map (emitted mode id message) evs.
Proof.
  revert st; induction evs as [|e evs IH]; intros st; simpl.
  - now rewrite app_nil_r.
  - now rewrite IH, trace_step_emitted, <- app_assoc.
Qed.

End Emitted.




Lemma quiet_not_closing (e : ws_event) : quiet e = true -> closing e = false.
Proof.
  unfold quiet. destruct e as [| [v|] | m | code]; try reflexivity.
  unfold verdict, closing, printable.
  destruct (malformed (WsMessage (Some v))); [discriminate|].
  destruct (has_tag (lit "done") v); [discriminate|].
  destruct (has_tag (lit "error") v); [|reflexivity].
  destruct (ToString _); discriminate.
Qed.

Lemma malformed_not_closing (e : ws_event) :
  malformed e = true -> closing e = false.
Proof.
  destruct e as [| [v|] | m | code]; try reflexivity.
  unfold malformed, closing. destruct (tag_of v) as [t|] eqn:Ht.
  - intros H. apply andb_true_iff in H as [Ha _].
    now rewrite (has_tag_unique _ (lit "done") _ Ha),
      (has_tag_unique _ (lit "error") _ Ha).
  - intros _. unfold has_tag. now rewrite Ht.
Qed.

Lemma malformed_verdict (e : ws_event) :
  malformed e = true -> verdict e = Some (Rejected process_failed).
Proof.
  destruct e as [| [v|] | m | code]; try discriminate; [|reflexivity].
  unfold verdict. now intros ->.
Qed.

Lemma ensure_calls (c : Copilot) (o : axios_outcome) (c1 : Copilot)
    (calls : list effect) (thrown : option jsstring) :
  ensure_conversation c o = (c1, calls, thrown) ->
  calls = [] \/ calls = [AxiosPost conversations_url (headers c)].
Proof.
  unfold ensure_conversation. destruct (truthy (conversationId c)).
  - intros [= _ <- _]. auto.
  - destruct (createConversation c o) as [c' [m|idv]]; intros [= _ <- _]; auto.
Qed.

Section FirstTerminal.

Variables (mode id : value) (message : jsstring).

(** The first event that is not quiet settles the promise, and nothing
    later unsettles it. *)
Lemma first_terminal_settles (pre : list ws_event) (e : ws_event)
    (post : list ws_event) (st : exchange) (s : settlement) :
  settled st = None -> forallb quiet pre = true -> verdict e = Some s ->
  settled (run mode id message (pre ++ e :: post) st) = Some s.
Proof.
  intros Hs Hq Hv. rewrite run_app. cbn [run]. apply run_sticky.
  rewrite settled_step by (now apply pending_iff_quiet). exact Hv.
Qed.

(** The caller resumes at the end of the job in which the promise is first
    settled. *)
Lemma await_job_of_first_settlement (before : list (list ws_event))
    (j : list ws_event) (after : list (list ws_event)) (st : exchange)
    (s : settlement) :
  settled st = None ->
  forallb quiet (concat before) = true ->
  settled (run mode id message (concat before ++ j) st) = Some s ->
  await_exchange mode id message (before ++ j :: after) st
    = run mode id message (concat before ++ j) st.
Proof.
  revert st; induction before as [|a before IH]; intros st Hs Hq Hj;
    simpl in *.
  - now rewrite Hj.
  - rewrite forallb_app in Hq. apply andb_true_iff in Hq as [Ha Hq].
    pose proof (proj2 (pending_iff_quiet mode id message a st Hs) Ha) as Hpa.
    rewrite Hpa, <- app_assoc, run_app.
    apply IH; auto. now rewrite <- run_app, app_assoc.
Qed.

End FirstTerminal.

(** X2.  When the promise is rejected by the listener's [catch] (a frame
    that cannot be processed) or by the socket's [error] event, and nothing
    follows, [chat] fails without ever calling [ws.close()]: only the [done]
    and [error] branches of the [switch] close the socket. *)
Theorem rejection_outside_the_switch_never_closes
    (c : Copilot) (message : jsstring) (w : backend) (c1 : Copilot)
    (calls : list effect) (pre : list ws_event) (e : ws_event) :
  ensure_conversation c (creation w) = (c1, calls, None) ->
  models c = models new_Copilot ->
  concat (jobs w) = pre ++ [e] ->
  forallb quiet pre = true ->
  malformed e = true \/ (exists m, e = WsError m) ->
  exists effects m,
    chat c message None w = (c1, effects, Failed m) /\
    forallb (fun x => negb (is_close_call x)) effects = true.
Proof.
  intros He Hm Hs Hq Hbad.
  assert (Hv : exists m, verdict e = Some (Rejected m)).
  { destruct Hbad as [Hmal | [m ->]]; [|simpl; eauto].
    rewrite (malformed_verdict e Hmal). eauto. }
  assert (Hc : closing e = false).
  { destruct Hbad as [Hmal | [m ->]]; [|reflexivity].
    now apply malformed_not_closing. }
  destruct Hv as [m Hv].
  rewrite (chat_exchange c message w c1 calls He Hm). cbv zeta.
  rewrite (await_whole_stream _ _ _ (jobs w) (fresh _) pre e Hs Hq eq_refl).
  exists (trace (run (VStr (lit "chat")) (conversationId c1) message
                   (pre ++ [e])
                   (fresh (calls ++ [WsConnect chat_url (headers c1)])))), m.
  split.
  - f_equal. unfold outcome_of.
    now rewrite (first_terminal_settles _ _ _ pre e [] (fresh _)
                   (Rejected m) eq_refl Hq Hv).
  - rewrite trace_run_emitted. cbn [trace fresh].
    rewrite !forallb_app.
    apply andb_true_iff; split; [apply andb_true_iff; split|].
    + destruct (ensure_calls _ _ _ _ _ He) as [-> | ->]; reflexivity.
    + reflexivity.
    + rewrite flat_map_app, forallb_app. apply andb_true_iff; split.
      * clear Hs. induction pre as [|a pre IH]; simpl in *; auto.
        apply andb_true_iff in Hq as [Ha Hq].
        rewrite forallb_app, (IH Hq), andb_true_r.
        destruct a as [| [v|] | m' | code]; try reflexivity.
        unfold emitted. now rewrite (quiet_not_closing _ Ha).
      * simpl. rewrite app_nil_r.
        destruct e as [| [v|] | m' | code]; try reflexivity;
          try discriminate Hv. unfold emitted. now rewrite Hc.
Qed.

Lemma rejection_outside_the_switch_never_closes_witness :
  let w := {| creation := created (lit "c1");
              jobs := [ [WsOpen; WsMessage (Some (appendText_frame (lit "Hi")))];
                        [WsMessage None] ] |} in
  exists effects m,
    chat new_Copilot (lit "Halo") None w
      = (set_conversationId new_Copilot (VStr (lit "c1")), effects, Failed m) /\
    forallb (fun x => negb (is_close_call x)) effects = true.
Proof.
  intros w.
  refine (rejection_outside_the_switch_never_closes new_Copilot (lit "Halo") w
            _ _ [WsOpen; WsMessage (Some (appendText_frame (lit "Hi")))]
            (WsMessage None) eq_refl eq_refl eq_refl eq_refl _).
  left. reflexivity.
Defined.

(** ** Failures other than an [error] frame *)

(** X3.  A socket error, or a frame the listener cannot process, that arrives
    while the promise is pending rejects [chat] with "WebSocket error: " and
    the socket's message, respectively with "Failed to process message from
    AI service."; whatever arrives later, a [done] frame included, changes
    nothing, and the route answers 500 with that message. *)
Theorem first_failure_is_the_reply
    (c : Copilot) (body : value) (w : backend) (t : clock) (query : value)
    (prompt : jsstring) (c1 : Copilot) (calls : list effect)
    (pre : list ws_event) (e : ws_event) (post : list ws_event)
    (msg : jsstring) :
  Get body (lit "query") = Some query ->
  rejects_query query = false ->
  Optimized.finalPrompt (field body (lit "customModel"))
    (field body (lit "language")) (as_string query) = inr prompt ->
  models c = models new_Copilot ->
  ensure_conversation c (creation w) = (c1, calls, None) ->
  concat (jobs w) = pre ++ e :: post ->
  forallb quiet pre = true ->
  (exists m, e = WsError m /\ msg = lit "WebSocket error: " ++ m) \/
  (malformed e = true /\ msg = process_failed) ->
  exists effects,
    chat c prompt None w = (c1, effects, Failed msg) /\
    Optimized.post_api_ai c body w t
      = (c1, effects, Replied 500 (server_error msg)).
Proof.
  intros Hq Hv Hp Hm He Hs Hquiet Hbad.
  assert (Hverdict : verdict e = Some (Rejected msg)).
  { destruct Hbad as [(m & -> & ->) | [Hmal ->]]; [reflexivity|].
    now apply malformed_verdict. }
  pose proof (chat_exchange c prompt w c1 calls He Hm) as Hchat.
  cbv zeta in Hchat.
  set (st := await_exchange (VStr (lit "chat")) (conversationId c1) prompt
               (jobs w) (fresh (calls ++ [WsConnect chat_url (headers c1)])))
    in *.
  assert (Hout : outcome_of st = Failed msg).
  { unfold outcome_of, st. rewrite settled_await, Hs.
    now rewrite (first_terminal_settles _ _ _ pre e post (fresh _)
                   (Rejected msg) eq_refl Hquiet Hverdict). }
  rewrite Hout in Hchat. exists (trace st). split; auto.
  rewrite (optimized_route c body w t query prompt Hq Hv Hp), Hchat.
  reflexivity.
Qed.

Lemma first_failure_is_the_reply_witness :
  let w := {| creation := created (lit "c1");
              jobs := [ [WsOpen];
                        [WsError (lit "socket hang up")];
                        [WsMessage (Some done_frame)] ] |} in
  exists effects,
    chat new_Copilot
      (Optimized.language_instruction (lit "Indonesia")
         ++ Optimized.delimiter ++ lit "Halo") None w
      = (set_conversationId new_Copilot (VStr (lit "c1")), effects,
         Failed (lit "WebSocket error: socket hang up")) /\
    Optimized.post_api_ai new_Copilot halo_body w noon
      = (set_conversationId new_Copilot (VStr (lit "c1")), effects,
         Replied 500 (server_error (lit "WebSocket error: socket hang up"))).
Proof.
  intros w.
  refine (first_failure_is_the_reply new_Copilot halo_body w noon
            (VStr (lit "Halo")) _ _ _ [WsOpen] (WsError (lit "socket hang up"))
            [WsMessage (Some done_frame)] _
            eq_refl eq_refl eq_refl eq_refl eq_refl eq_refl eq_refl _).
  left. exists (lit "socket hang up"). split; reflexivity.
Defined.

(** ** What the caller reads *)

(** X4.  The object [chat] is resolved with is the one the message listener
    keeps writing to, and the caller reads it when the job that delivered
    [done] is over: the text it finds is the fragments received before [done]
    followed by those of the frames dispatched after [done] in that job, and
    likewise for the citations.  Frames of later jobs are not seen. *)
Theorem caller_reads_the_shared_response
    (c : Copilot) (message : jsstring) (w : backend) (c1 : Copilot)
    (calls : list effect) (before : list (list ws_event))
    (j : list ws_event) (d : value) (late : list ws_event)
    (after : list (list ws_event)) :
  ensure_conversation c (creation w) = (c1, calls, None) ->
  models c = models new_Copilot ->
  jobs w = before ++ (j ++ WsMessage (Some d) :: late) :: after ->
  forallb quiet (concat before ++ j) = true ->
  has_tag (lit "done") d = true ->
  exists effects,
    chat c message None w
    = (c1, effects,
       Fulfilled
         {| text := appended (concat before ++ j) ++ appended late;
            citations := cited (concat before ++ j) ++ cited late |}).
Proof.
  intros He Hm Hj Hq Hd.
  rewrite (chat_exchange c message w c1 calls He Hm). cbv zeta. rewrite Hj.
  assert (Hqb : forallb quiet (concat before) = true).
  { rewrite forallb_app in Hq. now apply andb_true_iff in Hq as [Hb _]. }
  assert (Hset : settled
                   (run (VStr (lit "chat")) (conversationId c1) message
                      (concat before ++ j ++ WsMessage (Some d) :: late)
                      (fresh (calls ++ [WsConnect chat_url (headers c1)])))
                 = Some Resolved).
  { rewrite app_assoc.
    apply first_terminal_settles; auto. now apply done_verdict. }
  rewrite (await_job_of_first_settlement _ _ _ before _ after (fresh _)
             Resolved eq_refl Hqb Hset).
  eexists. f_equal. unfold outcome_of. rewrite Hset, response_run.
  cbn [response fresh text citations empty_response app].
  rewrite app_assoc.
  change (WsMessage (Some d) :: late) with ([WsMessage (Some d)] ++ late).
  rewrite !appended_app, !cited_app.
  destruct (verdict_resolved _ (done_verdict d Hd)) as (_ & -> & ->).
  reflexivity.
Qed.

Lemma caller_reads_the_shared_response_witness :
  let w := {| creation := created (lit "c1");
              jobs := [ [WsOpen; WsMessage (Some (appendText_frame (lit "Hi")))];
                        [WsMessage (Some done_frame);
                         WsMessage (Some (appendText_frame (lit " late")))];
                        [WsMessage (Some (appendText_frame (lit " later")))] ] |} in
  exists effects,
    chat new_Copilot (lit "Halo") None w
    = (set_conversationId new_Copilot (VStr (lit "c1")), effects,
       Fulfilled {| text := lit "Hi late"; citations := [] |}).
Proof.
  intros w.
  exact (caller_reads_the_shared_response new_Copilot (lit "Halo") w _ _
           [ [WsOpen; WsMessage (Some (appendText_frame (lit "Hi")))] ]
           [] done_frame [WsMessage (Some (appendText_frame (lit " late")))]
           [ [WsMessage (Some (appendText_frame (lit " later")))] ]
           eq_refl eq_refl eq_refl eq_refl eq_refl).
Defined.

(** ** Events that change nothing *)

Lemma ignorable_step (mode id : value) (message : jsstring) (e : ws_event)
    (st : exchange) :
  ignorable e = true -> on_event mode id message e st = st.
Proof.
  destruct e as [| [v|] | m | code]; try discriminate; [|reflexivity].
  unfold ignorable, tag_of. simpl. unfold on_message, dispatch.
  destruct (Get v (lit "event")) as [tag|] eqn:Htag; [|discriminate].
  destruct (strict_eq_str tag (lit "appendText")).
  - destruct (Get_defined v _ (lit "text") _ Htag) as [t Ht].
    rewrite Ht, (field_Get _ _ _ Ht). unfold or_else.
    destruct (truthy t); [discriminate|]. intros _. simpl.
    destruct st as [[tx cs] s tr]. unfold set_response; simpl.
    now rewrite app_nil_r.
  - destruct (strict_eq_str tag (lit "citation")); [discriminate|].
    destruct (strict_eq_str tag (lit "done")); [discriminate|].
    destruct (strict_eq_str tag (lit "error")); [discriminate|].
    reflexivity.
Qed.

Lemma run_without_ignorable (mode id : value) (message : jsstring)
    (evs : list ws_event) (st : exchange) :
  run mode id message (filter (fun e => negb (ignorable e)) evs) st
    = run mode id message evs st.
Proof.
  revert st; induction evs as [|e evs IH]; intros st; simpl; auto.
  destruct (ignorable e) eqn:E; simpl.
  - now rewrite (ignorable_step mode id message e st E).
  - apply IH.
Qed.

Lemma await_without_ignorable (mode id : value) (message : jsstring)
    (js : list (list ws_event)) (st : exchange) :
  await_exchange mode id message
    (map (filter (fun e => negb (ignorable e))) js) st
    = await_exchange mode id message js st.
Proof.
  revert st; induction js as [|j js IH]; intros st; simpl; auto.
  rewrite run_without_ignorable.
  destruct (settled (run mode id message j st)); auto.
Qed.

(** X5.  Events the listeners have no case for do not show in anything
    [chat] returns: the socket's [close] events, frames with an unknown tag
    or with none (a decoded number, string, boolean or array), and
    [appendText] frames whose [text] is missing, empty or otherwise falsy can
    be taken out of the stream without changing the adapter, the effects or
    the outcome, and so without changing the reply of either route. *)
Theorem ignorable_events_do_not_matter
    (c : Copilot) (message : jsstring) (model : option jsstring)
    (body : value) (w : backend) (t : clock) :
  chat c message model (without_ignorable w) = chat c message model w /\
  Optimized.post_api_ai c body (without_ignorable w) t
    = Optimized.post_api_ai c body w t /\
  Index.post_api_ai body (without_ignorable w) t = Index.post_api_ai body w t.
Proof.
  assert (Hchat : forall c' m' model',
             chat c' m' model' (without_ignorable w) = chat c' m' model' w).
  { intros c' m' model'. unfold chat. cbn [creation jobs without_ignorable].
    destruct (ensure_conversation c' (creation w)) as [[c1 calls] [m|]]; auto.
    destruct (truthy _); auto. now rewrite await_without_ignorable. }
  repeat split.
  - apply Hchat.
  - unfold Optimized.post_api_ai.
    destruct (Get body (lit "query")) as [q|]; auto.
    destruct (Get body (lit "customModel")) as [cm|]; auto.
    destruct (Get body (lit "language")) as [lg|]; auto.
    destruct (rejects_query q); auto.
    destruct (Optimized.finalPrompt cm lg (as_string q)); auto.
    now rewrite Hchat.
  - unfold Index.post_api_ai.
    destruct (Get body (lit "query")) as [q|]; auto.
    destruct (rejects_query q); auto. now rewrite Hchat.
Qed.

Example ignorable_examples :
  map ignorable
    [ WsClosed 1006;
      WsMessage (Some (VObj [ (lit "event", VStr (lit "titleUpdate")) ]));
      WsMessage (Some (VNum (lit "42")));
      WsMessage (Some (VArr [VStr (lit "done")]));
      WsMessage (Some (VObj [ (lit "event", VStr (lit "appendText")) ]));
      WsMessage (Some (appendText_frame []));
      WsMessage (Some (appendText_frame (lit " ")));
      WsMessage (Some VNull);
      WsMessage (Some (citation_frame [] [] [])) ]
  = [ true; true; true; true; true; true; false; false; false ].
Proof. reflexivity. Qed.

(** ** Trimming *)

Lemma trimStart_suffix (s : jsstring) :
  exists p, s = p ++ JsString.trimStart s.
Proof.
  induction s as [|c s [p IH]]; simpl.
  - now exists [].
  - destruct (JsString.is_ws c).
    + exists (c :: p). simpl. now f_equal.
    + now exists [].
Qed.

Lemma trimStart_head (s : jsstring) (c : N) (r : jsstring) :
  JsString.trimStart s = c :: r -> JsString.is_ws c = false.
Proof.
  induction s as [|a s IH]; simpl; [discriminate|].
  destruct (JsString.is_ws a) eqn:E; auto.
  intros [= <- _]. exact E.
Qed.

Lemma trim_bare (s : jsstring) : bare (JsString.trim s) = true.
Proof.
  unfold bare, JsString.trim. rewrite rev_involutive.
  set (t := JsString.trimStart s).
  set (u := JsString.trimStart (rev t)).
  apply andb_true_iff; split.
  - destruct (rev u) as [|a r] eqn:Hu; auto.
    destruct (trimStart_suffix (rev t)) as [p Hp]. fold u in Hp.
    apply (f_equal (@rev N)) in Hp.
    rewrite rev_involutive, rev_app_distr, Hu in Hp. simpl in Hp.
    now rewrite (trimStart_head s a _ Hp).
  - destruct u as [|a r] eqn:Hu; auto.
    now rewrite (trimStart_head (rev t) a r Hu).
Qed.

Lemma bare_trim (s : jsstring) : bare s = true -> JsString.trim s = s.
Proof.
  unfold bare, JsString.trim. intros H. apply andb_true_iff in H as [H1 H2].
  assert (Hs : JsString.trimStart s = s).
  { destruct s as [|c s]; simpl in *; auto.
    now destruct (JsString.is_ws c). }
  rewrite Hs.
  assert (Hr : JsString.trimStart (rev s) = rev s).
  { destruct (rev s) as [|c r]; simpl in *; auto.
    now destruct (JsString.is_ws c). }
  now rewrite Hr, rev_involutive.
Qed.

Lemma trim_shorter (s : jsstring) : (length (JsString.trim s) <= length s)%nat.
Proof.
  assert (H : forall x, (length (JsString.trimStart x) <= length x)%nat).
  { intros x. destruct (trimStart_suffix x) as [p Hp].
    rewrite Hp at 2. rewrite length_app. lia. }
  unfold JsString.trim. rewrite length_rev.
  etransitivity; [apply H|]. rewrite length_rev. apply H.
Qed.

(** [trim] leaves no whitespace at either end of a string, changes
    nothing in a string that has none there (so trimming twice is trimming
    once), and never makes a string longer. *)
Theorem trim_removes_surrounding_whitespace (s : jsstring) :
  bare (JsString.trim s) = true /\
  JsString.trim (JsString.trim s) = JsString.trim s /\
  (length (JsString.trim s) <= length s)%nat.
Proof.
  repeat split.
  - apply trim_bare.
  - apply bare_trim, trim_bare.
  - apply trim_shorter.
Qed.

(** ** The shape of a reply *)

Lemma finalPrompt_ends_with_query (cm lg : value) (q p : jsstring) :
  Optimized.finalPrompt cm lg q = inr p ->
  exists instructions, p = instructions ++ Optimized.delimiter ++ q.
Proof.
  unfold Optimized.finalPrompt.
  destruct (Optimized.persona cm) as [m|l]; [discriminate|].
  destruct (ToString _) as [lang|]; [|discriminate].
  intros H.
  exists (JsString.join (lit " ") (l ++ [Optimized.language_instruction lang])).
  congruence.
Qed.

Lemma finalPrompt_longer (cm lg : value) (q p : jsstring) :
  Optimized.finalPrompt cm lg q = inr p -> (length q < length p)%nat.
Proof.
  intros H. destruct (finalPrompt_ends_with_query _ _ _ _ H) as [i ->].
  rewrite !length_app.
  change (length Optimized.delimiter) with 19%nat. lia.
Qed.

Lemma respond_200 (q prompt : jsstring) (cm lg : value) (t : clock)
    (result : outcome) (b : value) :
  Optimized.respond q prompt cm lg t result = Replied 200 b ->
  exists r,
    result = Fulfilled r /\
    b = success (JsString.trim (text r)) (citations r)
          (Optimized.metadata q prompt (JsString.trim (text r)) (citations r)
             cm lg t).
Proof.
  destruct result as [r | m |]; simpl; try discriminate.
  intros [= <-]. eauto.
Qed.

(** X6.  Every 200 reply of the optimized route comes from a resolved
    exchange: its [response] is a string with no whitespace at either end,
    [metadata.responseLength] is the length of that string,
    [metadata.citationCount] the number of entries of [citations], and
    [metadata.finalPromptLength] is greater than [metadata.queryLength], the
    prompt being the query with the instructions before it. *)
Theorem success_reply_is_consistent
    (c : Copilot) (body : value) (w : backend) (t : clock) (c' : Copilot)
    (effects : list effect) (b : value) :
  Optimized.post_api_ai c body w t = (c', effects, Replied 200 b) ->
  exists (s : jsstring) (cits : list value) (metadata : value) (nq np : nat),
    Get b (lit "success") = Some (VBool true) /\
    Get b (lit "response") = Some (VStr s) /\ bare s = true /\
    Get b (lit "citations") = Some (VArr cits) /\
    Get b (lit "metadata") = Some metadata /\
    Get metadata (lit "responseLength") = Some (number_of_nat (length s)) /\
    Get metadata (lit "citationCount") = Some (number_of_nat (length cits)) /\
    Get metadata (lit "queryLength") = Some (number_of_nat nq) /\
    Get metadata (lit "finalPromptLength") = Some (number_of_nat np) /\
    (nq < np)%nat.
Proof.
  unfold Optimized.post_api_ai.
  destruct (Get body (lit "query")) as [q|]; [|discriminate].
  destruct (Get body (lit "customModel")) as [cm|]; [|discriminate].
  destruct (Get body (lit "language")) as [lg|]; [|discriminate].
  destruct (rejects_query q); [discriminate|].
  destruct (Optimized.finalPrompt cm lg (as_string q)) as [m|prompt] eqn:Hp;
    [discriminate|].
  destruct (chat c prompt None w) as [[c2 effs] result].
  intros [= _ _ H].
  destruct (respond_200 _ _ _ _ _ _ _ H) as (r & _ & ->).
  exists (JsString.trim (text r)), (map citation_value (citations r)),
    (Optimized.metadata (as_string q) prompt (JsString.trim (text r))
       (citations r) cm lg t),
    (length (as_string q)), (length prompt).
  repeat split; try reflexivity.
  - apply trim_bare.
  - now rewrite length_map.
  - now apply (finalPrompt_longer cm lg).
Qed.

Lemma success_reply_is_consistent_witness :
  let w := {| creation := created (lit "c1"); jobs := [halo_stream] |} in
  exists (s : jsstring) (cits : list value) (metadata : value) (nq np : nat),
    Get (success (lit "Hi there") []
           (Optimized.metadata (lit "Halo")
              (Optimized.language_instruction (lit "Indonesia")
                 ++ Optimized.delimiter ++ lit "Halo")
              (lit "Hi there") [] VUndefined VUndefined noon))
      (lit "success") = Some (VBool true) /\
    Get (success (lit "Hi there") []
           (Optimized.metadata (lit "Halo")
              (Optimized.language_instruction (lit "Indonesia")
                 ++ Optimized.delimiter ++ lit "Halo")
              (lit "Hi there") [] VUndefined VUndefined noon))
      (lit "response") = Some (VStr s) /\ bare s = true /\
    Get (success (lit "Hi there") []
           (Optimized.metadata (lit "Halo")
              (Optimized.language_instruction (lit "Indonesia")
                 ++ Optimized.delimiter ++ lit "Halo")
              (lit "Hi there") [] VUndefined VUndefined noon))
      (lit "citations") = Some (VArr cits) /\
    Get (success (lit "Hi there") []
           (Optimized.metadata (lit "Halo")
              (Optimized.language_instruction (lit "Indonesia")
                 ++ Optimized.delimiter ++ lit "Halo")
              (lit "Hi there") [] VUndefined VUndefined noon))
      (lit "metadata") = Some metadata /\
    Get metadata (lit "responseLength") = Some (number_of_nat (length s)) /\
    Get metadata (lit "citationCount") = Some (number_of_nat (length cits)) /\
    Get metadata (lit "queryLength") = Some (number_of_nat nq) /\
    Get metadata (lit "finalPromptLength") = Some (number_of_nat np) /\
    (nq < np)%nat.
Proof.
  intros w.
  exact (success_reply_is_consistent new_Copilot halo_body w noon _ _ _ eq_refl).
Defined.

(** ** No timeout *)

Lemma ensure_succeeds (c : Copilot) (o : axios_outcome) (data idv : value) :
  axios_post o = inr data -> Get data (lit "id") = Some idv ->
  exists c1 calls, ensure_conversation c o = (c1, calls, None).
Proof.
  intros Hpost Hid. unfold ensure_conversation, createConversation.
  destruct (truthy (conversationId c)); [eauto|].
  rewrite Hpost, Hid. eauto.
Qed.

(** X7.  Nothing bounds the wait for the backend: when the conversation is
    obtained and the socket delivers no terminal event (no [done], no
    [error], no unprocessable frame, no socket error), [chat] stays pending
    and neither route ever sends a reply, even after the socket has reported
    that it closed. *)
Theorem no_terminal_event_no_reply
    (c : Copilot) (body : value) (w : backend) (t : clock) (query : value)
    (prompt : jsstring) (data idv : value) :
  Get body (lit "query") = Some query ->
  rejects_query query = false ->
  Optimized.finalPrompt (field body (lit "customModel"))
    (field body (lit "language")) (as_string query) = inr prompt ->
  models c = models new_Copilot ->
  axios_post (creation w) = inr data ->
  Get data (lit "id") = Some idv ->
  forallb quiet (concat (jobs w)) = true ->
  snd (chat c prompt None w) = Pending /\
  snd (Optimized.post_api_ai c body w t) = Unanswered /\
  snd (Index.post_api_ai body w t) = Unanswered.
Proof.
  intros Hq Hv Hp Hm Hpost Hid Hquiet.
  assert (Hchat : forall c0 m0, models c0 = models new_Copilot ->
             snd (chat c0 m0 None w) = Pending).
  { intros c0 m0 Hm0.
    destruct (ensure_succeeds c0 (creation w) data idv Hpost Hid)
      as (c1 & calls & He).
    rewrite (chat_exchange c0 m0 w c1 calls He Hm0). cbv zeta. simpl.
    now apply pending_without_terminal_event. }
  repeat split.
  - now apply Hchat.
  - rewrite (optimized_route c body w t query prompt Hq Hv Hp). simpl.
    now rewrite (Hchat c prompt Hm).
  - rewrite (index_route body w t query Hq Hv). simpl.
    now rewrite (Hchat new_Copilot (as_string query) eq_refl).
Qed.

Lemma no_terminal_event_no_reply_witness :
  let w := {| creation := created (lit "c1");
              jobs := [ [WsOpen];
                        [WsMessage (Some (appendText_frame (lit "Hi")))];
                        [WsClosed 1006] ] |} in
  snd (chat new_Copilot
         (Optimized.language_instruction (lit "Indonesia")
            ++ Optimized.delimiter ++ lit "Halo") None w) = Pending /\
  snd (Optimized.post_api_ai new_Copilot halo_body w noon) = Unanswered /\
  snd (Index.post_api_ai halo_body w noon) = Unanswered.
Proof.
  intros w.
  exact (no_terminal_event_no_reply new_Copilot halo_body w noon
           (VStr (lit "Halo")) _ _ (VStr (lit "c1"))
           eq_refl eq_refl eq_refl eq_refl eq_refl eq_refl eq_refl).
Defined.

(** ** The prompt block *)

(** X8.  A [customModel] that is truthy and not a string (a number, [true],
    an array, an object) makes [customModel.trim()] throw inside the [try]:
    the optimized route answers 500 with the TypeError's message, contacts
    the backend not at all and leaves the adapter as it was.  The route of
    [src/index.js] does not read the field. *)
Theorem non_string_persona_is_a_server_error
    (c : Copilot) (body : value) (w : backend) (t : clock)
    (query customModel : value) :
  Get body (lit "query") = Some query ->
  rejects_query query = false ->
  Get body (lit "customModel") = Some customModel ->
  truthy customModel = true ->
  is_string customModel = false ->
  Optimized.post_api_ai c body w t
    = (c, [],
       Replied 500
         (server_error (lit "customModel.trim is not a function"))) /\
  Index.post_api_ai body w t
    = (snd (fst (chat new_Copilot (as_string query) None w)),
       Index.respond (as_string query) t
         (snd (chat new_Copilot (as_string query) None w))).
Proof.
  intros Hq Hv Hcm Ht Hs. split; [|now apply index_route].
  unfold Optimized.post_api_ai.
  destruct (Get_defined body _ (lit "language") _ Hq) as [lg Hlg].
  rewrite Hq, Hcm, Hlg, Hv.
  unfold Optimized.finalPrompt, Optimized.persona. rewrite Ht.
  destruct customModel; try discriminate; reflexivity.
Qed.

Lemma non_string_persona_is_a_server_error_witness :
  let body := VObj [ (lit "query", VStr (lit "Halo"));
                     (lit "customModel", VNum (lit "7")) ] in
  let w := {| creation := created (lit "c1"); jobs := [halo_stream] |} in
  Optimized.post_api_ai new_Copilot body w noon
    = (new_Copilot, [],
       Replied 500
         (server_error (lit "customModel.trim is not a function"))) /\
  Index.post_api_ai body w noon
    = (snd (fst (chat new_Copilot (lit "Halo") None w)),
       Index.respond (lit "Halo") noon
         (snd (chat new_Copilot (lit "Halo") None w))).
Proof.
  intros body w.
  exact (non_string_persona_is_a_server_error new_Copilot body w noon
           (VStr (lit "Halo")) (VNum (lit "7"))
           eq_refl eq_refl eq_refl eq_refl eq_refl).
Defined.

(** X9.  A persona that is a string not blank after trimming is put into
    the prompt as it was received, untrimmed and unescaped, between double
    quotes; the persona instruction, one space, the language instruction, the
    delimiter and the query make the prompt, and that prompt is what the
    route hands to [chat].  A missing or falsy [language] (an empty string,
    [null], [0], [false]) means "Indonesia". *)
Theorem persona_is_inserted_verbatim
    (c : Copilot) (body : value) (w : backend) (t : clock)
    (query : value) (s l : jsstring) :
  Get body (lit "query") = Some query ->
  rejects_query query = false ->
  Get body (lit "customModel") = Some (VStr s) ->
  JsString.trim s <> [] ->
  ToString (Optimized.outputLanguage (field body (lit "language"))) = Some l ->
  let prompt :=
    lit "Anda adalah AI yang harus berperan sebagai: " ++ JsString.dquote
      ++ s ++ JsString.dquote
      ++ lit ". Pertahankan karakter ini dalam jawaban Anda."
      ++ lit " "
      ++ lit "Anda harus menjawab secara eksklusif dalam Bahasa " ++ l
      ++ lit "." ++ Optimized.delimiter ++ as_string query in
  Optimized.finalPrompt (VStr s) (field body (lit "language")) (as_string query)
    = inr prompt /\
  fst (Optimized.post_api_ai c body w t) = fst (chat c prompt None w) /\
  (truthy (field body (lit "language")) = false -> l = lit "Indonesia").
Proof.
  intros Hq Hv Hcm Hs Hl prompt.
  assert (Hp : Optimized.finalPrompt (VStr s) (field body (lit "language"))
                 (as_string query) = inr prompt).
  { unfold Optimized.finalPrompt, Optimized.persona. rewrite Hl.
    assert (Ht : truthy (VStr s) = true) by (destruct s; [now elim Hs | auto]).
    rewrite Ht.
    destruct (JsString.eqb (JsString.trim s) []) eqn:E.
    - apply eqb_eq in E. contradiction.
    - unfold prompt, Optimized.persona_instruction,
        Optimized.language_instruction.
      cbn [app JsString.join]. now rewrite <- !app_assoc. }
  repeat split; auto.
  - rewrite (optimized_route c body w t query prompt Hq Hv); auto.
    now rewrite (field_Get _ _ _ Hcm).
  - intros Hf. unfold Optimized.outputLanguage, or_else in Hl.
    rewrite Hf in Hl. now injection Hl as <-.
Qed.

Lemma persona_is_inserted_verbatim_witness :
  let body := VObj [ (lit "query", VStr (lit "Halo"));
                     (lit "customModel", VStr (lit " Guru "));
                     (lit "language", VStr []) ] in
  let w := {| creation := created (lit "c1"); jobs := [halo_stream] |} in
  let prompt :=
    lit "Anda adalah AI yang harus berperan sebagai: " ++ JsString.dquote
      ++ lit " Guru " ++ JsString.dquote
      ++ lit ". Pertahankan karakter ini dalam jawaban Anda."
      ++ lit " "
      ++ lit "Anda harus menjawab secara eksklusif dalam Bahasa "
      ++ lit "Indonesia" ++ lit "." ++ Optimized.delimiter ++ lit "Halo" in
  Optimized.finalPrompt (VStr (lit " Guru ")) (VStr []) (lit "Halo")
    = inr prompt /\
  fst (Optimized.post_api_ai new_Copilot body w noon)
    = fst (chat new_Copilot prompt None w) /\
  (truthy (VStr []) = false -> lit "Indonesia" = lit "Indonesia").
Proof.
  intros body w prompt.
  refine (persona_is_inserted_verbatim new_Copilot body w noon
            (VStr (lit "Halo")) (lit " Guru ") (lit "Indonesia")
            eq_refl eq_refl eq_refl _ eq_refl).
  discriminate.
Defined.

(** ** The conversation identity *)

Lemma emitted_no_post (mode id : value) (message : jsstring) (e : ws_event) :
  forallb (fun x => negb (is_post x)) (emitted mode id message e) = true.
Proof.
  destruct e as [| [v|] | m | code]; try reflexivity.
  unfold emitted. now destruct (closing _).
Qed.

Lemma run_no_post (mode id : value) (message : jsstring)
    (evs : list ws_event) (st : exchange) :
  forallb (fun x => negb (is_post x)) (trace st) = true ->
  forallb (fun x => negb (is_post x)) (trace (run mode id message evs st))
    = true.
Proof.
  intros H. rewrite trace_run_emitted, forallb_app, H. simpl.
  induction evs as [|e evs IH]; simpl; auto.
  now rewrite forallb_app, emitted_no_post, IH.
Qed.

Lemma await_no_post (mode id : value) (message : jsstring)
    (js : list (list ws_event)) (st : exchange) :
  forallb (fun x => negb (is_post x)) (trace st) = true ->
  forallb (fun x => negb (is_post x))
    (trace (await_exchange mode id message js st)) = true.
Proof.
  revert st; induction js as [|j js IH]; intros st H; simpl; auto.
  destruct (settled (run mode id message j st)).
  - now apply run_no_post.
  - apply IH. now apply run_no_post.
Qed.

(** With an identity cached, [chat] makes no request for one and returns
    the adapter as it was. *)
Lemma chat_cached (c : Copilot) (message : jsstring)
    (model : option jsstring) (w : backend) :
  truthy (conversationId c) = true ->
  fst (fst (chat c message model w)) = c /\
  forallb (fun x => negb (is_post x)) (snd (fst (chat c message model w)))
    = true.
Proof.
  intros Hc. unfold chat, ensure_conversation. rewrite Hc.
  destruct (truthy (field (VObj (models c)) _)); simpl; auto.
  split; auto. now apply await_no_post.
Qed.

Lemma optimized_cached (c : Copilot) (body : value) (w : backend) (t : clock) :
  truthy (conversationId c) = true ->
  fst (fst (Optimized.post_api_ai c body w t)) = c /\
  forallb (fun x => negb (is_post x))
    (snd (fst (Optimized.post_api_ai c body w t))) = true.
Proof.
  intros Hc. unfold Optimized.post_api_ai.
  destruct (Get body (lit "query")) as [q|]; auto.
  destruct (Get body (lit "customModel")) as [cm|]; auto.
  destruct (Get body (lit "language")) as [lg|]; auto.
  destruct (rejects_query q); auto.
  destruct (Optimized.finalPrompt cm lg (as_string q)) as [m|prompt]; auto.
  pose proof (chat_cached c prompt None w Hc) as H.
  now destruct (chat c prompt None w) as [[c' effs] out].
Qed.

(** X11.  The route of [src/index.js] builds a new adapter for each request:
    every accepted request starts with a request for a conversation, and the
    message it sends on [open] is the query as received, untrimmed. *)
Theorem index_route_creates_each_time
    (body : value) (w : backend) (t : clock) (s : jsstring) :
  Get body (lit "query") = Some (VStr s) ->
  JsString.trim s <> [] ->
  (exists rest r,
     Index.post_api_ai body w t
       = (AxiosPost conversations_url (headers new_Copilot) :: rest, r)) /\
  Index.post_api_ai body w t
    = (snd (fst (chat new_Copilot s None w)),
       Index.respond s t (snd (chat new_Copilot s None w))).
Proof.
  intros Hq Hs.
  assert (Hv : rejects_query (VStr s) = false).
  { unfold rejects_query. simpl.
    destruct (JsString.eqb (JsString.trim s) []) eqn:E.
    - apply eqb_eq in E. contradiction.
    - destruct s; [now elim Hs | reflexivity]. }
  pose proof (index_route body w t (VStr s) Hq Hv) as Hr. simpl in Hr.
  split; auto. rewrite Hr.
  destruct (chat_requests_conversation new_Copilot s None w eq_refl)
    as (c' & rest & out & ->).
  simpl. eauto.
Qed.

Lemma index_route_creates_each_time_witness :
  let body := VObj [ (lit "query", VStr (lit " Halo ")) ] in
  let w := {| creation := created (lit "c1"); jobs := [halo_stream] |} in
  (exists rest r,
     Index.post_api_ai body w noon
       = (AxiosPost conversations_url (headers new_Copilot) :: rest, r)) /\
  Index.post_api_ai body w noon
    = (snd (fst (chat new_Copilot (lit " Halo ") None w)),
       Index.respond (lit " Halo ") noon
         (snd (chat new_Copilot (lit " Halo ") None w))).
Proof.
  intros body w.
  refine (index_route_creates_each_time body w noon (lit " Halo ") eq_refl _).
  discriminate.
Defined.

(** X12.  A 2xx answer to the request for a conversation whose body has no
    [id], or a falsy one, is not a failure: [chat] stores that value, goes on
    to open the socket, and the adapter still counts as having no identity,
    so the next call asks for a conversation again. *)
Theorem response_without_id_is_not_a_failure
    (c : Copilot) (message : jsstring) (w : backend) (data idv : value) :
  truthy (conversationId c) = false ->
  models c = models new_Copilot ->
  axios_post (creation w) = inr data ->
  Get data (lit "id") = Some idv ->
  truthy idv = false ->
  exists rest out,
    chat c message None w
      = (set_conversationId c idv,
         AxiosPost conversations_url (headers c)
           :: WsConnect chat_url (headers c) :: rest,
         out) /\
    forall message' model' w',
    exists c' rest' out',
      chat (set_conversationId c idv) message' model' w'
        = (c', AxiosPost conversations_url (headers c) :: rest', out').
Proof.
  intros Hc Hm Hpost Hid Hf.
  pose proof (ensure_created c (creation w) data idv Hc Hpost Hid) as He.
  rewrite (chat_exchange c message w _ _ He Hm). cbv zeta.
  match goal with
  | |- context [trace (await_exchange ?m ?i ?msg ?js ?st)] =>
      destruct (trace_await m i msg js st) as [more Hmore]; rewrite Hmore
  end.
  simpl. eexists _, _. split; [reflexivity|].
  intros message' model' w'.
  apply (chat_requests_conversation (set_conversationId c idv)). exact Hf.
Qed.

Lemma response_without_id_is_not_a_failure_witness :
  let w := {| creation := HttpResponse 200 (VObj [ (lit "ok", VBool true) ]);
              jobs := [halo_stream] |} in
  exists rest out,
    chat new_Copilot (lit "Halo") None w
      = (set_conversationId new_Copilot VUndefined,
         AxiosPost conversations_url (headers new_Copilot)
           :: WsConnect chat_url (headers new_Copilot) :: rest,
         out) /\
    forall message' model' w',
    exists c' rest' out',
      chat (set_conversationId new_Copilot VUndefined) message' model' w'
        = (c', AxiosPost conversations_url (headers new_Copilot) :: rest', out').
Proof.
  intros w.
  exact (response_without_id_is_not_a_failure new_Copilot (lit "Halo") w
           _ VUndefined eq_refl eq_refl eq_refl eq_refl eq_refl).
Defined.

(** X13.  A 2xx answer whose body is [null] makes the read of [data.id]
    throw inside the [try] of [createConversation]: it is reported like a
    failed request, with "Failed to create a new conversation with the AI
    service.", no socket is opened and nothing is cached. *)
Theorem null_body_is_a_failed_creation
    (c : Copilot) (message : jsstring) (model : option jsstring)
    (w : backend) (data : value) :
  truthy (conversationId c) = false ->
  axios_post (creation w) = inr data ->
  data = VNull \/ data = VUndefined ->
  chat c message model w
    = (c, [AxiosPost conversations_url (headers c)], Failed create_failed).
Proof.
  intros Hc Hpost Hnull. unfold chat, ensure_conversation, createConversation.
  rewrite Hc, Hpost. now destruct Hnull as [-> | ->].
Qed.

Lemma null_body_is_a_failed_creation_witness :
  chat new_Copilot (lit "Halo") None
    {| creation := HttpResponse 200 VNull; jobs := [halo_stream] |}
    = (new_Copilot, [AxiosPost conversations_url (headers new_Copilot)],
       Failed create_failed).
Proof.
  refine (null_body_is_a_failed_creation new_Copilot (lit "Halo") None
            {| creation := HttpResponse 200 VNull; jobs := [halo_stream] |}
            VNull eq_refl eq_refl _).
  now left.
Defined.

(** ** The selector, again *)

Lemma unknown_selector_fails_witness :
  let w := {| creation := created (lit "c1"); jobs := [halo_stream] |} in
  chat new_Copilot (lit "Halo") (Some (lit "gpt-4")) w
    = (set_conversationId new_Copilot (VStr (lit "c1")),
       [AxiosPost conversations_url (headers new_Copilot)],
       Failed (lit "Available models: default, think-deeper, gpt-5")) /\
  (forall target hs,
     ~ In (WsConnect target hs)
         [AxiosPost conversations_url (headers new_Copilot)]).
Proof.
  intros w.
  exact (unknown_selector_fails new_Copilot (lit "Halo") (lit "gpt-4") w
           _ _ eq_refl eq_refl eq_refl).
Defined.

Lemma await_is_run (mode id : value) (message : jsstring)
    (js : list (list ws_event)) (st : exchange) :
  exists evs, await_exchange mode id message js st = run mode id message evs st.
Proof.
  revert st; induction js as [|j js IH]; intros st; simpl.
  - now exists [].
  - destruct (settled (run mode id message j st)); [eauto|].
    destruct (IH (run mode id message j st)) as [evs ->].
    exists (j ++ evs). now rewrite run_app.
Qed.



(** ** Requests in turn *)

Lemma await_trace_no_post (mode id : value) (message : jsstring)
    (js : list (list ws_event)) (st : exchange) :
  exists more,
    trace (await_exchange mode id message js st) = trace st ++ more /\
    forallb (fun x => negb (is_post x)) more = true.
Proof.
  destruct (await_is_run mode id message js st) as [evs ->].
  exists (flat_map (emitted mode id message) evs).
  split; [apply trace_run_emitted|].
  induction evs as [|e evs IH]; simpl; auto.
  now rewrite forallb_app, emitted_no_post, IH.
Qed.

Lemma serve_in_turn_cached (c : Copilot)
    (requests : list (value * backend * clock)) :
  truthy (conversationId c) = true ->
  fst (serve_in_turn c requests) = c /\
  forallb (fun o => forallb (fun x => negb (is_post x)) (fst o))
    (snd (serve_in_turn c requests)) = true.
Proof.
  intros Hc. induction requests as [|[[body w] t] rest [IH1 IH2]]; simpl; auto.
  destruct (optimized_cached c body w t Hc) as [H1 H2].
  destruct (Optimized.post_api_ai c body w t) as [[c' effs] r].
  simpl in H1, H2. subst c'.
  destruct (serve_in_turn c rest) as [c'' replies]. simpl in *.
  now rewrite H2, IH2.
Qed.

(** X10.  Requests to the optimized route that are handled one after
    another, none starting while another's request for a conversation is in
    flight, create one conversation: when the first is accepted, finds no
    identity and gets a truthy [id], its effects start with the one request
    for a conversation, the adapter holds that [id] whatever becomes of the
    exchange, and no later request of the sequence, accepted or not, asks for
    a conversation or changes the adapter.  (Between the check of
    [this.conversationId] and the write in [createConversation] the handler
    is suspended: a request that starts in that window is outside this
    statement.) *)
Theorem requests_in_turn_create_once
    (c : Copilot) (body : value) (w : backend) (t : clock) (query : value)
    (prompt : jsstring) (data idv : value)
    (later : list (value * backend * clock)) :
  Get body (lit "query") = Some query ->
  rejects_query query = false ->
  Optimized.finalPrompt (field body (lit "customModel"))
    (field body (lit "language")) (as_string query) = inr prompt ->
  truthy (conversationId c) = false ->
  axios_post (creation w) = inr data ->
  Get data (lit "id") = Some idv ->
  truthy idv = true ->
  exists effects r replies,
    serve_in_turn c ((body, w, t) :: later)
      = (set_conversationId c idv,
         (AxiosPost conversations_url (headers c) :: effects, r) :: replies) /\
    forallb (fun x => negb (is_post x)) effects = true /\
    forallb (fun o => forallb (fun x => negb (is_post x)) (fst o)) replies
      = true.
Proof.
  intros Hq Hv Hp Hc Hpost Hid Ht.
  assert (Hfirst : exists effects,
             fst (Optimized.post_api_ai c body w t)
               = (set_conversationId c idv,
                  AxiosPost conversations_url (headers c) :: effects) /\
             forallb (fun x => negb (is_post x)) effects = true).
  { rewrite (optimized_route c body w t query prompt Hq Hv Hp). simpl.
    unfold chat. rewrite (ensure_created c (creation w) data idv Hc Hpost Hid).
    destruct (truthy (field _ _)).
    - match goal with
      | |- context [trace (await_exchange ?m ?i ?msg ?js ?st)] =>
          destruct (await_trace_no_post m i msg js st) as (more & -> & Hmore)
      end.
      simpl. eauto.
    - simpl. eauto. }
  destruct Hfirst as (effects & Hfst & Hno).
  cbn [serve_in_turn].
  destruct (Optimized.post_api_ai c body w t) as [[c1 effs] r]. simpl in Hfst.
  injection Hfst as -> ->.
  destruct (serve_in_turn_cached (set_conversationId c idv) later Ht)
    as [H1 H2].
  destruct (serve_in_turn (set_conversationId c idv) later) as [c2 replies].
  simpl in H1, H2. subst c2.
  exists effects, r, replies. auto.
Qed.

Lemma requests_in_turn_create_once_witness :
  let w := {| creation := created (lit "c1");
              jobs := [ [WsOpen]; [WsError (lit "socket hang up")] ] |} in
  let w' := {| creation := created (lit "c2"); jobs := [halo_stream] |} in
  exists effects r replies,
    serve_in_turn new_Copilot
      [ (halo_body, w, noon); (halo_body, w', noon);
        (VObj [], w', noon) ]
      = (set_conversationId new_Copilot (VStr (lit "c1")),
         (AxiosPost conversations_url (headers new_Copilot) :: effects, r)
           :: replies) /\
    forallb (fun x => negb (is_post x)) effects = true /\
    forallb (fun o => forallb (fun x => negb (is_post x)) (fst o)) replies
      = true.
Proof.
  intros w w'.
  exact (requests_in_turn_create_once new_Copilot halo_body w noon
           (VStr (lit "Halo")) _ _ (VStr (lit "c1"))
           [ (halo_body, w', noon); (VObj [], w', noon) ]
           eq_refl eq_refl eq_refl eq_refl eq_refl eq_refl eq_refl).
Defined.

(** ** What [chat] resolves its caller with *)




